(** * sturdyc: the sharded cache client of cache.go

    A shallow embedding of [cache.go]: the [Config] and [Client] records,
    the constructor [New], the aggregate [Size], the router [getShard],
    [Delete], [set], [reportCacheHits] and the background eviction loop
    started by [startEvictions].

    Go's [int] and [time.Duration] are 64-bit signed integers, modelled as
    [Z] with the wrap-around written out; [uint64] is [Z] reduced modulo
    [2^64].  A run-time panic is an explicit [Panic] outcome.  Calls that the
    client makes on its collaborators (the metrics recorder, the shards, the
    clock) are collected in a trace, in program order. *)

From Stdlib Require Import ZArith Lia.
From stdpp Require Import base numbers list strings gmap.

Open Scope Z_scope.

(** ** Go integers, panics and the call trace *)

Module Go.

Definition max_int : Z := 2 ^ 63 - 1.
Definition min_int : Z := - 2 ^ 63.

(** Two's complement wrap-around of a 64-bit signed result. *)
Definition wrap_int (z : Z) : Z := (z + 2 ^ 63) mod 2 ^ 64 - 2 ^ 63.

(** Conversion to [uint64]. *)
Definition uint64 (z : Z) : Z := z mod 2 ^ 64.

Inductive Outcome (A : Type) : Type :=
| Ok (a : A)
| Panic (msg : string).
Arguments Ok {A} a.
Arguments Panic {A} msg.

(** A computation: the calls made so far, and how it ended. *)
Definition M (E A : Type) : Type := (list E * Outcome A)%type.

Definition ret {E A} (a : A) : M E A := ([], Ok a).
Definition panic {E A} (msg : string) : M E A := ([], Panic msg).
Definition call {E} (e : E) : M E unit := ([e], Ok tt).
Definition lift {E A} (o : Outcome A) : M E A := ([], o).

Definition bind {E A B} (m : M E A) (k : A -> M E B) : M E B :=
  match m with
  | (tr, Ok a) => let '(tr', r) := k a in (tr ++ tr', r)
  | (tr, Panic msg) => (tr, Panic msg)
  end.

(** [a / b] on [int]: truncated division, panics on a zero divisor; the
    one quotient of two [int]s that is not an [int] wraps. *)
Definition quot {E} (a b : Z) : M E Z :=
  if b =? 0 then panic "integer divide by zero"
  else if (a =? min_int) && (b =? -1) then ret min_int
  else ret (Z.quot a b).

(** [a % b] on [int]: truncated remainder, panics on a zero divisor. *)
Definition rem {E} (a b : Z) : M E Z :=
  if b =? 0 then panic "integer divide by zero"
  else ret (Z.rem a b).

(** [a % b] on [uint64]. *)
Definition umod {E} (a b : Z) : M E Z :=
  if b =? 0 then panic "integer divide by zero"
  else ret (a mod b).

(** [l[i]]: a slice access, bounds-checked. *)
Definition index {E A} (l : list A) (i : Z) : M E A :=
  if i <? 0 then panic "index out of range"
  else match l !! Z.to_nat i with
       | Some x => ret x
       | None => panic "index out of range"
       end.

(** The size of a pointer and the largest allocation the runtime accepts
    ([maxAlloc], with 48 bits of heap address), as on linux/amd64. *)
Definition ptr_size : Z := 8.
Definition maxAlloc : Z := 2 ^ 48.

(** [make([]X, n)] for elements of [elemSize] bytes, as [makeslice] decides
    it: a panic when the length is negative or the [elemSize * n] bytes
    overflow or exceed [maxAlloc]; otherwise the length of the new slice.
    An allocation the operating system then refuses is a fatal error of the
    runtime and not a panic; it is not part of this model. *)
Definition make {E} (elemSize n : Z) : M E nat :=
  if (n <? 0) || (maxAlloc <? elemSize * n)
  then panic "makeslice: len out of range"
  else ret (Z.to_nat n).

End Go.
Import Go.

Notation "x <- m ;; k" := (bind m (fun x => k))
  (at level 100, m at next level, right associativity).

Definition Time : Type := Z.      (* an instant, in nanoseconds *)
Definition Duration : Type := Z.  (* time.Duration: int64 nanoseconds *)

(** The methods of the [MetricsRecorder] interface, as calls. *)
Inductive MetricCall : Type :=
| CacheHit
| CacheMiss
| Eviction
| ForcedEviction
| EntriesEvicted (n : Z)
| ShardIndex (i : Z)
| CacheBatchRefreshSize (size : Z)
| ObserveCacheSize.

(** The methods the client invokes on one of its shards. *)
Inductive ShardMethod : Type :=
| CallSize
| CallEvictExpired
| CallDelete (key : string)
| CallSet (key : string) (isMissingRecord : bool).

(** [getSize] of the default configuration is the bound method
    [client.Size] of the client under construction. *)
Inductive SizeFn : Type := ClientSize.

Section Sturdyc.

Context {T Clock MetricsRecorder : Type}.

(** [NewClock()] and [xxhash.Sum64String] are declared outside cache.go. *)
Variable NewClock : Clock.
Variable Sum64String : string -> Z.

(** What the code calls on its collaborators. *)
Inductive Call : Type :=
| Metric (r : MetricsRecorder) (m : MetricCall)
| ShardCall (i : nat) (m : ShardMethod)
| GoEvictions
| NewTicker (clk : Clock) (d : Duration)
| StopTicker.

(** [Config]: the scalar fields; [metricsRecorder] is an interface value,
    [None] for nil.  The mutex and the two buffer maps of the refresh
    coordinator start at their zero values and are not read by cache.go. *)
Record Config : Type := mkConfig {
  clock : Clock;
  evictionInterval : Duration;
  metricsRecorder : option MetricsRecorder;
  refreshesEnabled : bool;
  minRefreshTime : Duration;
  maxRefreshTime : Duration;
  retryBaseDelay : Duration;
  storeMisses : bool;
  bufferRefreshes : bool;
  batchSize : Z;
  bufferTimeout : Duration;
  passthroughPercentage : Z;
  passthroughBuffering : bool;
  useRelativeTimeKeyFormat : bool;
  keyTruncation : Duration;
  getSize : option SizeFn
}.

(** An option is a function that updates the configuration in place. *)
Definition Option : Type := Config -> Config.

(** Modelled from the spec: the entry (section 3, "Entry": a value, its
    creation time and the flag of a cached negative result); the shard's
    source file is not part of cache.go. *)
Record entry : Type := mkEntry {
  value : T;
  createdAt : Time;
  isMissingRecord : bool
}.

(** Modelled from the spec: the shard (section 3, "Shard": a map from key
    to entry, a capacity bound, an eviction percentage and a TTL), with the
    shared configuration [newShard] is given. *)
Record shard : Type := mkShard {
  shardCfg : Config;
  capacity : Z;
  shardTTL : Duration;
  evictionPercentage : Z;
  entries : gmap string entry
}.

(** Modelled from the spec: [newShard] (section 3, "created once at cache
    construction with a fixed slice of total capacity"), an empty shard
    holding its four arguments. *)
Definition newShard (capacity : Z) (ttl : Duration) (evictionPercentage : Z)
    (cfg : Config) : shard :=
  {| shardCfg := cfg; capacity := capacity; shardTTL := ttl;
     evictionPercentage := evictionPercentage; entries := ∅ |}.

(** The shard [s] after its map has been replaced by [m]. *)
Definition with_entries (s : shard) (m : gmap string entry) : shard :=
  {| shardCfg := shardCfg s; capacity := capacity s; shardTTL := shardTTL s;
     evictionPercentage := evictionPercentage s; entries := m |}.

(** Modelled from the spec: [shard.size] (section 4.1, "current entry
    count"). *)
Definition shard_size (s : shard) : Z := Z.of_nat (size (entries s)).

(** Modelled from the spec: [shard.delete] (section 4.1, "removes the entry
    if present; no-op otherwise; no error"). *)
Definition shard_delete (key : string) (s : shard) : shard :=
  with_entries s (delete key (entries s)).

(** Modelled from the spec: [shard.evictExpired] (section 4.1, "scans for
    entries whose expiry has passed and removes them"; expiry is creation
    time plus TTL).  [now] is the clock's reading during the sweep. *)
Definition shard_evictExpired (now : Time) (s : shard) : Outcome shard :=
  Ok (with_entries s
        (filter (fun kv => now <= createdAt kv.2 + shardTTL s) (entries s))).

(** [Client]: the embedded [*Config] is the field [cfg]; a [*shard] is the
    position of the shard in [shards]. *)
Record Client : Type := mkClient {
  cfg : Config;
  ttl : Duration;
  shards : list shard;
  nextShard : Z
}.

(** Modelled from the spec: [validateArgs] (section 4.2: "validates
    numShards > 0, ttl > 0, 0 <= evictionPercentage <= 100,
    capacity >= numShards (else fails with a configuration error)"); its
    source is not part of cache.go. *)
Definition validateArgs (capacity numShards : Z) (ttl : Duration)
    (evictionPercentage : Z) : M Call unit :=
  if numShards <=? 0 then panic "numShards must be greater than 0"
  else if ttl <=? 0 then panic "ttl must be greater than 0"
  else if (evictionPercentage <? 0) || (100 <? evictionPercentage)
    then panic "evictionPercentage must be between 0 and 100"
  else if capacity <? numShards
    then panic "capacity must be greater than or equal to numShards"
  else ret tt.

(** [startEvictions] launches the eviction goroutine and returns. *)
Definition startEvictions (c : Client) : M Call unit := call GoEvictions.

(** The configuration [New] builds before the options run. *)
Definition defaultConfig (interval : Duration) : Config :=
  {| clock := NewClock;
     evictionInterval := interval;
     metricsRecorder := None;
     refreshesEnabled := false;
     minRefreshTime := 0;
     maxRefreshTime := 0;
     retryBaseDelay := 0;
     storeMisses := false;
     bufferRefreshes := false;
     batchSize := 0;
     bufferTimeout := 0;
     passthroughPercentage := 100;
     passthroughBuffering := false;
     useRelativeTimeKeyFormat := false;
     keyTruncation := 0;
     getSize := Some ClientSize |}.

(** [for _, opt := range opts { opt(cfg) }] *)
Definition applyOptions (opts : list Option) (cfg : Config) : Config :=
  foldl (fun cfg opt => opt cfg) cfg opts.

Definition New (capacity numShards : Z) (ttl : Duration)
    (evictionPercentage : Z) (opts : list Option) : M Call Client :=
  _ <- validateArgs capacity numShards ttl evictionPercentage ;;
  interval <- quot ttl numShards ;;
  let cfg := applyOptions opts (defaultConfig interval) in
  shardSize <- quot capacity numShards ;;
  len <- make ptr_size numShards ;;
  let shards := replicate len (newShard shardSize ttl evictionPercentage cfg) in
  let client :=
    {| cfg := cfg; ttl := ttl; shards := shards; nextShard := 0 |} in
  _ <- startEvictions client ;;
  ret client.

(** The client [c] after the shards it points to have become [l]. *)
Definition with_shards (c : Client) (l : list shard) : Client :=
  {| cfg := cfg c; ttl := ttl c; shards := l; nextShard := nextShard c |}.

(** [Size]: the loop over [c.shards], with the running [sum]. *)
Fixpoint sizeLoop (i : nat) (l : list shard) (sum : Z) : M Call Z :=
  match l with
  | [] => ret sum
  | s :: l' =>
      _ <- call (ShardCall i CallSize) ;;
      sizeLoop (S i) l' (wrap_int (sum + shard_size s))
  end.

Definition Size (c : Client) : M Call Z := sizeLoop 0 (shards c) 0.

(** [getShard] returns the position of the chosen shard. *)
Definition getShard (c : Client) (key : string) : M Call nat :=
  let hash := uint64 (Sum64String key) in
  shardIndex <- umod hash (uint64 (Z.of_nat (length (shards c)))) ;;
  _ <- match metricsRecorder (cfg c) with
       | Some r => call (Metric r (ShardIndex (wrap_int shardIndex)))
       | None => ret tt
       end ;;
  _ <- index (shards c) shardIndex ;;
  ret (Z.to_nat shardIndex).

Definition Delete (c : Client) (key : string) : M Call Client :=
  i <- getShard c key ;;
  _ <- call (ShardCall i (CallDelete key)) ;;
  ret (with_shards c (alter (shard_delete key) i (shards c))).

Definition reportCacheHits (c : Client) (cacheHit : bool) : M Call unit :=
  match metricsRecorder (cfg c) with
  | None => ret tt
  | Some r =>
      if negb cacheHit then call (Metric r CacheMiss)
      else call (Metric r CacheHit)
  end.

(** The eviction goroutine after a prefix of the ticks: blocked on the
    ticker channel, or unwound by a panic. *)
Inductive Goroutine : Type :=
| Waiting (c : Client)
| Crashed (msg : string).

Section Collaborators.

(** Which keys a forced eviction removes: the spec leaves rounding and
    tie-breaks to the shard. *)
Variable forcedVictims : shard -> list string.

(** The sweep of one shard, as the scheduler sees it: it returns, or it
    panics. *)
Variable evictExpired : Time -> shard -> Outcome shard.

(** Modelled from the spec: [shard.set] (section 4.1, "inserts or
    overwrites; if post-insert size exceeds capacity, performs forced
    eviction ..., report ForcedEviction + EntriesEvicted(n) to the metrics
    sink.  Returns whether eviction fired"). *)
Definition shard_set (now : Time) (key : string) (v : T)
    (isMissing : bool) (s : shard) : M Call (shard * bool) :=
  let written := <[key := mkEntry v now isMissing]> (entries s) in
  if Z.of_nat (size written) <=? capacity s
  then ret (with_entries s written, false)
  else
    let victims := forcedVictims (with_entries s written) in
    _ <- match metricsRecorder (shardCfg s) with
         | Some r =>
             _ <- call (Metric r ForcedEviction) ;;
             call (Metric r (EntriesEvicted (Z.of_nat (length victims))))
         | None => ret tt
         end ;;
    ret (with_entries s (foldr delete written victims), true).

(** [set]; [now] is the clock's reading during the write. *)
Definition set (now : Time) (c : Client) (key : string) (v : T)
    (isMissingRecord : bool) : M Call (Client * bool) :=
  i <- getShard c key ;;
  s <- index (shards c) (Z.of_nat i) ;;
  _ <- call (ShardCall i (CallSet key isMissingRecord)) ;;
  r <- shard_set now key v isMissingRecord s ;;
  ret (with_shards c (<[i := r.1]> (shards c)), r.2).

(** The body of [for range ticker] in [startEvictions], for one tick;
    [now] is the clock's reading during the sweep. *)
Definition evictionTick (now : Time) (c : Client) : M Call Client :=
  _ <- match metricsRecorder (cfg c) with
       | Some r => call (Metric r Eviction)
       | None => ret tt
       end ;;
  s <- index (shards c) (nextShard c) ;;
  _ <- call (ShardCall (Z.to_nat (nextShard c)) CallEvictExpired) ;;
  s' <- lift (evictExpired now s) ;;
  next <- rem (wrap_int (nextShard c + 1)) (Z.of_nat (length (shards c))) ;;
  ret {| cfg := cfg c; ttl := ttl c;
         shards := <[Z.to_nat (nextShard c) := s']> (shards c);
         nextShard := next |}.

(** The loop of the goroutine over the ticks delivered so far.  A panic
    unwinds the loop; the deferred [stop] runs on the way out. *)
Fixpoint evictionLoop (ticks : list Time) (c : Client)
    : list Call * Goroutine :=
  match ticks with
  | [] => ([], Waiting c)
  | now :: rest =>
      match evictionTick now c with
      | (tr, Ok c') =>
          let '(tr', g) := evictionLoop rest c' in (tr ++ tr', g)
      | (tr, Panic msg) => (tr ++ [StopTicker], Crashed msg)
      end
  end.

(** The goroutine launched by [startEvictions]: it asks the clock for a
    ticker and enters the loop. *)
Definition evictionRoutine (ticks : list Time) (c : Client)
    : list Call * Goroutine :=
  let '(tr, g) := evictionLoop ticks c in
  (NewTicker (clock (cfg c)) (evictionInterval (cfg c)) :: tr, g).

(** The operations on a client during its lifetime: ticks of the
    eviction goroutine interleaved with the callers' operations. *)
Inductive Op : Type :=
| OpTick (now : Time)
| OpDelete (key : string)
| OpSet (now : Time) (key : string) (v : T) (isMissingRecord : bool)
| OpSize
| OpGetShard (key : string)
| OpReport (cacheHit : bool).

Definition step (op : Op) (c : Client) : M Call Client :=
  match op with
  | OpTick now => evictionTick now c
  | OpDelete key => Delete c key
  | OpSet now key v m => r <- set now c key v m ;; ret r.1
  | OpSize => _ <- Size c ;; ret c
  | OpGetShard key => _ <- getShard c key ;; ret c
  | OpReport hit => _ <- reportCacheHits c hit ;; ret c
  end.

Fixpoint run (ops : list Op) (c : Client) : M Call Client :=
  match ops with
  | [] => ret c
  | op :: ops' => c' <- step op c ;; run ops' c'
  end.

End Collaborators.

(** The calls made by [if c.metricsRecorder != nil { c.metricsRecorder.m() }]
    when the recorder is [mr]. *)
Definition reportTo (mr : option MetricsRecorder) (m : MetricCall)
    : list Call :=
  match mr with
  | Some r => [Metric r m]
  | None => []
  end.

(** Reading a trace: the shards swept, and the shards asked for their
    size. *)
Definition sweptShard (e : Call) : option nat :=
  match e with ShardCall i CallEvictExpired => Some i | _ => None end.

Definition sizedShard (e : Call) : option nat :=
  match e with ShardCall i CallSize => Some i | _ => None end.

Definition sweeps (tr : list Call) : list nat := omap sweptShard tr.
Definition sized (tr : list Call) : list nat := omap sizedShard tr.

(** The sum of the shards' sizes, as a mathematical integer. *)
Definition sumSizes (l : list shard) : Z := foldr Z.add 0 (shard_size <$> l).

(** The shape every client has from [New] on: a non-empty slice of shards
    whose length is an [int], and a cursor inside it. *)
Definition wf (c : Client) : Prop :=
  (0 < length (shards c))%nat ∧
  Z.of_nat (length (shards c)) <= max_int ∧
  0 <= nextShard c < Z.of_nat (length (shards c)).

(** The validity of the arguments of [New], as the spec lists it. *)
Definition validArgs (capacity numShards : Z) (ttl : Duration)
    (evictionPercentage : Z) : Prop :=
  numShards > 0 ∧ ttl > 0 ∧ 0 <= evictionPercentage <= 100 ∧
  capacity >= numShards.

(** The client a successful [New] returns, in closed form. *)
Definition constructed (capacity numShards : Z) (ttl : Duration)
    (evictionPercentage : Z) (opts : list Option) : Client :=
  let cfg := applyOptions opts (defaultConfig (Z.quot ttl numShards)) in
  {| cfg := cfg; ttl := ttl;
     shards := replicate (Z.to_nat numShards)
                 (newShard (Z.quot capacity numShards) ttl
                    evictionPercentage cfg);
     nextShard := 0 |}.

End Sturdyc.

Arguments Call : clear implicits.
Arguments Config : clear implicits.
Arguments Option : clear implicits.
Arguments entry : clear implicits.
Arguments shard : clear implicits.
Arguments Client : clear implicits.
Arguments Goroutine : clear implicits.
Arguments Op : clear implicits.

(** ** Concrete collaborators, used to run the model *)

Module Sample.

(** The value type, the clocks and the recorders are numbers here; clock
    [0] is the one [NewClock()] returns. *)
Definition hashLen (key : string) : Z := Z.of_nat (String.length key).

Definition noVictims (s : shard nat nat nat) : list string := [].

(** A sweep that panics, whatever the shard. *)
Definition failingSweep (now : Time) (s : shard nat nat nat)
    : Outcome (shard nat nat nat) :=
  Panic "sweep failed".

(** An option that installs the clock [clk] and the recorder [mr]. *)
Definition With (clk : nat) (mr : option nat) : Option nat nat :=
  fun cfg =>
    {| clock := clk;
       evictionInterval := evictionInterval cfg;
       metricsRecorder := mr;
       refreshesEnabled := refreshesEnabled cfg;
       minRefreshTime := minRefreshTime cfg;
       maxRefreshTime := maxRefreshTime cfg;
       retryBaseDelay := retryBaseDelay cfg;
       storeMisses := storeMisses cfg;
       bufferRefreshes := bufferRefreshes cfg;
       batchSize := batchSize cfg;
       bufferTimeout := bufferTimeout cfg;
       passthroughPercentage := passthroughPercentage cfg;
       passthroughBuffering := passthroughBuffering cfg;
       useRelativeTimeKeyFormat := useRelativeTimeKeyFormat cfg;
       keyTruncation := keyTruncation cfg;
       getSize := getSize cfg |}.

(** The clients of [New(10, 2, 1000, 50)], without options and with a
    custom clock and recorder [7]. *)
Definition plain : Client nat nat nat :=
  constructed 0%nat 10 2 1000 50 [].

Definition metered : Client nat nat nat :=
  constructed 0%nat 10 2 1000 50 [With 1%nat (Some 7%nat)].

(** [plain] holding three entries, each in the shard [hashLen] routes its
    key to: one in shard 0, two in shard 1. *)
Definition stocked : Client nat nat nat :=
  let s := newShard 5 1000 50 (cfg plain) in
  let e := mkEntry 0%nat 0 false in
  with_shards plain
    [with_entries s {["ab" := e]};
     with_entries s (<["a" := e]> {["abc" := e]})].

End Sample.

(** ** Observations on clients and traces *)

Section Observations.

Context {T Clock MetricsRecorder : Type}.
Variable Sum64String : string -> Z.

(** The position [getShard] computes for [key] among [n] shards. *)
Definition route (n : nat) (key : string) : nat :=
  Z.to_nat (uint64 (Sum64String key) mod Z.of_nat n).

(** Every cached key sits in the shard its hash routes it to. *)
Definition placed (c : Client T Clock MetricsRecorder) : Prop :=
  ∀ j s key,
    shards c !! j = Some s ->
    is_Some (entries s !! key) ->
    j = route (length (shards c)) key.

(** No shard of the client holds [key]. *)
Definition uncached (key : string) (c : Client T Clock MetricsRecorder)
    : Prop :=
  ∀ j s, shards c !! j = Some s -> entries s !! key = None.

(** Every shard is within its capacity. *)
Definition bounded (c : Client T Clock MetricsRecorder) : Prop :=
  Forall (fun s => shard_size s <= capacity s) (shards c).

(** The sum of the shards' capacities. *)
Definition sumCapacities (l : list (shard T Clock MetricsRecorder)) : Z :=
  foldr Z.add 0 (capacity <$> l).

(** How many of the operations are ticks of the eviction goroutine. *)
Fixpoint countTicks (ops : list (Op T)) : nat :=
  match ops with
  | [] => 0
  | OpTick _ :: ops' => S (countTicks ops')
  | _ :: ops' => countTicks ops'
  end.

(** What the [k]-th tick from cursor [cursor] puts on the trace. *)
Definition tickTrace (mr : option MetricsRecorder) (n : nat) (cursor : Z)
    (k : nat) : list (Call Clock MetricsRecorder) :=
  reportTo mr Eviction
    ++ [ShardCall (Z.to_nat ((cursor + Z.of_nat k) mod Z.of_nat n))
          CallEvictExpired].

(** The report [reportCacheHits] makes for one read. *)
Definition hitReport (mr : option MetricsRecorder) (cacheHit : bool)
    : list (Call Clock MetricsRecorder) :=
  reportTo mr (if cacheHit then CacheHit else CacheMiss).

End Observations.

Module Corner.

(** A client whose shard slice is empty. *)
Definition hollow : Client nat nat nat := with_shards Sample.metered [].

(** An option that sets the eviction interval to [d]. *)
Definition WithEvictionInterval (d : Duration) : Option nat nat :=
  fun cfg =>
    {| clock := clock cfg;
       evictionInterval := d;
       metricsRecorder := metricsRecorder cfg;
       refreshesEnabled := refreshesEnabled cfg;
       minRefreshTime := minRefreshTime cfg;
       maxRefreshTime := maxRefreshTime cfg;
       retryBaseDelay := retryBaseDelay cfg;
       storeMisses := storeMisses cfg;
       bufferRefreshes := bufferRefreshes cfg;
       batchSize := batchSize cfg;
       bufferTimeout := bufferTimeout cfg;
       passthroughPercentage := passthroughPercentage cfg;
       passthroughBuffering := passthroughBuffering cfg;
       useRelativeTimeKeyFormat := useRelativeTimeKeyFormat cfg;
       keyTruncation := keyTruncation cfg;
       getSize := getSize cfg |}.

(** The clients of [New(3, 3, 2, 50)], whose TTL is smaller than its number
    of shards, of [New(10, 3, 1000, 50)], whose capacity does not divide
    evenly, and of [New(10, 2, 1000, 50)] with an interval of 50. *)
Definition hasty : Client nat nat nat := constructed 0%nat 3 3 2 50 [].

Definition uneven : Client nat nat nat := constructed 0%nat 10 3 1000 50 [].

Definition paced : Client nat nat nat :=
  constructed 0%nat 10 2 1000 50
    [Sample.With 1%nat (Some 7%nat); WithEvictionInterval 50].

(** An option that turns the caching of misses on. *)
Definition WithStoreMisses : Option nat nat :=
  fun cfg =>
    {| clock := clock cfg;
       evictionInterval := evictionInterval cfg;
       metricsRecorder := metricsRecorder cfg;
       refreshesEnabled := refreshesEnabled cfg;
       minRefreshTime := minRefreshTime cfg;
       maxRefreshTime := maxRefreshTime cfg;
       retryBaseDelay := retryBaseDelay cfg;
       storeMisses := true;
       bufferRefreshes := bufferRefreshes cfg;
       batchSize := batchSize cfg;
       bufferTimeout := bufferTimeout cfg;
       passthroughPercentage := passthroughPercentage cfg;
       passthroughBuffering := passthroughBuffering cfg;
       useRelativeTimeKeyFormat := useRelativeTimeKeyFormat cfg;
       keyTruncation := keyTruncation cfg;
       getSize := getSize cfg |}.

(** The client of [New(10, 2, 1000, 50)] with three options: a clock and a
    recorder, the caching of misses, and an interval of 50. *)
Definition tuned : Client nat nat nat :=
  constructed 0%nat 10 2 1000 50
    [Sample.With 1%nat (Some 7%nat); WithStoreMisses;
     WithEvictionInterval 50].

End Corner.

(** ** Properties *)

Section Properties.

Context {T Clock MetricsRecorder : Type}.
Variable NewClock : Clock.
Variable Sum64String : string -> Z.
Variable forcedVictims : shard T Clock MetricsRecorder -> list string.

Implicit Types (c : Client T Clock MetricsRecorder)
               (opts : list (Option Clock MetricsRecorder))
               (tr : list (Call Clock MetricsRecorder)).

(** *** The constructor *)

Lemma validateArgs_valid capacity numShards ttl evictionPercentage :
  validArgs capacity numShards ttl evictionPercentage ->
  validateArgs (Clock := Clock) (MetricsRecorder := MetricsRecorder)
    capacity numShards ttl evictionPercentage = ret tt.
Proof.
  intros (Hn & Ht & He & Hc). unfold validateArgs.
  destruct (Z.leb_spec numShards 0); [lia|].
  destruct (Z.leb_spec ttl 0); [lia|].
  destruct (Z.ltb_spec evictionPercentage 0); [lia|].
  destruct (Z.ltb_spec 100 evictionPercentage); [lia|].
  destruct (Z.ltb_spec capacity numShards); [lia|].
  reflexivity.
Qed.

Lemma validateArgs_invalid capacity numShards ttl evictionPercentage :
  ¬ validArgs capacity numShards ttl evictionPercentage ->
  ∃ msg,
    validateArgs (Clock := Clock) (MetricsRecorder := MetricsRecorder)
      capacity numShards ttl evictionPercentage = panic msg.
Proof.
  intros Hbad. unfold validateArgs, validArgs in *.
  destruct (Z.leb_spec numShards 0); [eauto|].
  destruct (Z.leb_spec ttl 0); [eauto|].
  destruct (Z.ltb_spec evictionPercentage 0); [simpl; eauto|].
  destruct (Z.ltb_spec 100 evictionPercentage); [simpl; eauto|].
  destruct (Z.ltb_spec capacity numShards); [simpl; eauto|].
  exfalso. apply Hbad. lia.
Qed.

Lemma quot_pos (a b : Z) :
  0 < b -> quot (E := Call Clock MetricsRecorder) a b = ret (Z.quot a b).
Proof.
  intros Hb. unfold quot.
  destruct (Z.eqb_spec b 0); [lia|].
  destruct (Z.eqb_spec b (-1)); [lia|].
  by rewrite andb_false_r.
Qed.

Lemma New_valid capacity numShards ttl evictionPercentage opts :
  validArgs capacity numShards ttl evictionPercentage ->
  ptr_size * numShards <= maxAlloc ->
  New NewClock (T := T) capacity numShards ttl evictionPercentage opts
  = ([GoEvictions],
     Ok (constructed NewClock capacity numShards ttl evictionPercentage opts)).
Proof.
  intros Hv Hmax. pose proof Hv as (Hn & _). unfold New.
  rewrite validateArgs_valid by done. cbn [bind ret].
  rewrite !quot_pos by lia. cbn [bind ret].
  unfold make.
  destruct (Z.ltb_spec numShards 0); [lia|].
  destruct (Z.ltb_spec maxAlloc (ptr_size * numShards)); [lia|].
  reflexivity.
Qed.

Lemma New_oversized capacity numShards ttl evictionPercentage opts :
  validArgs capacity numShards ttl evictionPercentage ->
  maxAlloc < ptr_size * numShards ->
  New NewClock (T := T) capacity numShards ttl evictionPercentage opts
  = ([], Panic "makeslice: len out of range").
Proof.
  intros Hv Hmax. pose proof Hv as (Hn & _). unfold New.
  rewrite validateArgs_valid by done. cbn [bind ret].
  rewrite !quot_pos by lia. cbn [bind ret].
  unfold make.
  destruct (Z.ltb_spec numShards 0); [lia|].
  destruct (Z.ltb_spec maxAlloc (ptr_size * numShards)); [|lia].
  reflexivity.
Qed.

Lemma New_invalid capacity numShards ttl evictionPercentage opts :
  ¬ validArgs capacity numShards ttl evictionPercentage ->
  ∃ msg,
    New NewClock (T := T) capacity numShards ttl evictionPercentage opts
    = ([], Panic msg).
Proof.
  intros Hbad.
  destruct (validateArgs_invalid _ _ _ _ Hbad) as [msg Hmsg].
  exists msg. unfold New. by rewrite Hmsg.
Qed.

Lemma validArgs_dec capacity numShards ttl evictionPercentage :
  Decision (validArgs capacity numShards ttl evictionPercentage).
Proof. unfold validArgs. apply _. Defined.

Lemma New_inv capacity numShards ttl evictionPercentage opts tr c :
  New NewClock capacity numShards ttl evictionPercentage opts = (tr, Ok c) ->
  validArgs capacity numShards ttl evictionPercentage ∧
  numShards <= max_int ∧
  tr = [GoEvictions] ∧
  c = constructed NewClock capacity numShards ttl evictionPercentage opts.
Proof.
  intros HNew.
  destruct (validArgs_dec capacity numShards ttl evictionPercentage)
    as [Hv|Hbad].
  - destruct (Z.le_gt_cases (ptr_size * numShards) maxAlloc) as [Hmax|Hmax].
    + rewrite New_valid in HNew by done. simplify_eq.
      split_and!; try done. unfold ptr_size, maxAlloc, max_int in *. lia.
    + rewrite New_oversized in HNew by (done || lia). discriminate.
  - destruct (New_invalid _ _ _ _ opts Hbad) as [msg Hmsg].
    rewrite Hmsg in HNew. discriminate.
Qed.

Lemma New_allocates capacity numShards ttl evictionPercentage opts tr c :
  New NewClock capacity numShards ttl evictionPercentage opts = (tr, Ok c) ->
  ptr_size * numShards <= maxAlloc.
Proof.
  intros HNew.
  destruct (validArgs_dec capacity numShards ttl evictionPercentage)
    as [Hv|Hbad].
  - destruct (Z.le_gt_cases (ptr_size * numShards) maxAlloc) as [Hmax|Hmax];
      [done|].
    rewrite New_oversized in HNew by (done || lia). discriminate.
  - destruct (New_invalid _ _ _ _ opts Hbad) as [msg Hmsg].
    rewrite Hmsg in HNew. discriminate.
Qed.

(** C1: [New] succeeds only on arguments with [numShards > 0], [ttl > 0],
    [0 <= evictionPercentage <= 100] and [capacity >= numShards]; on any
    other arguments it panics before anything is built: no client is
    returned and the eviction goroutine is not launched. *)
Theorem New_validates capacity numShards ttl evictionPercentage opts :
  (∀ tr c,
     New NewClock (T := T) capacity numShards ttl evictionPercentage opts
     = (tr, Ok c) ->
     numShards > 0 ∧ ttl > 0 ∧ 0 <= evictionPercentage <= 100 ∧
     capacity >= numShards) ∧
  (¬ (numShards > 0 ∧ ttl > 0 ∧ 0 <= evictionPercentage <= 100 ∧
      capacity >= numShards) ->
   ∃ msg,
     New NewClock (T := T) capacity numShards ttl evictionPercentage opts
     = ([], Panic msg)).
Proof.
  split.
  - intros tr c HNew. by destruct (New_inv _ _ _ _ _ _ _ HNew) as [Hv _].
  - apply New_invalid.
Qed.

(** *** Integers *)

Lemma wrap_int_small (z : Z) : min_int <= z <= max_int -> wrap_int z = z.
Proof.
  unfold wrap_int, min_int, max_int. intros Hz.
  rewrite Z.mod_small by lia. lia.
Qed.

Lemma wrap_int_add (a b : Z) : wrap_int (wrap_int a + b) = wrap_int (a + b).
Proof.
  unfold wrap_int. f_equal.
  replace ((a + 2 ^ 63) mod 2 ^ 64 - 2 ^ 63 + b + 2 ^ 63)
    with ((a + 2 ^ 63) mod 2 ^ 64 + b) by lia.
  rewrite Zplus_mod_idemp_l. f_equal. lia.
Qed.

Lemma wrap_int_idem (a : Z) : wrap_int (wrap_int a) = wrap_int a.
Proof.
  pose proof (wrap_int_add a 0) as H. by rewrite !Z.add_0_r in H.
Qed.

Lemma uint64_small (z : Z) : 0 <= z <= max_int -> uint64 z = z.
Proof.
  unfold uint64, max_int. intros Hz. apply Z.mod_small. lia.
Qed.

(** *** One tick of the eviction loop *)

Section Tick.

Variable evictExpired :
  Time -> shard T Clock MetricsRecorder ->
  Outcome (shard T Clock MetricsRecorder).

Lemma wf_lookup c :
  wf c -> ∃ s, shards c !! Z.to_nat (nextShard c) = Some s.
Proof.
  intros (Hpos & Hmax & Hcur).
  apply lookup_lt_is_Some_2. lia.
Qed.

Lemma evictionTick_returns now c s s' :
  wf c ->
  shards c !! Z.to_nat (nextShard c) = Some s ->
  evictExpired now s = Ok s' ->
  evictionTick evictExpired now c
  = (reportTo (metricsRecorder (cfg c)) Eviction
       ++ [ShardCall (Z.to_nat (nextShard c)) CallEvictExpired],
     Ok {| cfg := cfg c; ttl := ttl c;
           shards := <[Z.to_nat (nextShard c) := s']> (shards c);
           nextShard :=
             (nextShard c + 1) mod Z.of_nat (length (shards c)) |}).
Proof.
  intros (Hpos & Hmax & Hcur) Hs Hsweep. unfold evictionTick, index.
  destruct (Z.ltb_spec (nextShard c) 0); [lia|].
  rewrite Hs. unfold rem.
  destruct (Z.eqb_spec (Z.of_nat (length (shards c))) 0); [lia|].
  rewrite wrap_int_small by (unfold min_int, max_int in *; lia).
  rewrite Z.rem_mod_nonneg by lia.
  destruct (metricsRecorder (cfg c));
    cbn [bind ret call lift app]; rewrite Hsweep; reflexivity.
Qed.

Lemma evictionTick_panics now c s msg :
  wf c ->
  shards c !! Z.to_nat (nextShard c) = Some s ->
  evictExpired now s = Panic msg ->
  evictionTick evictExpired now c
  = (reportTo (metricsRecorder (cfg c)) Eviction
       ++ [ShardCall (Z.to_nat (nextShard c)) CallEvictExpired],
     Panic msg).
Proof.
  intros (Hpos & Hmax & Hcur) Hs Hsweep. unfold evictionTick, index.
  destruct (Z.ltb_spec (nextShard c) 0); [lia|].
  rewrite Hs.
  destruct (metricsRecorder (cfg c));
    cbn [bind ret call lift app]; rewrite Hsweep; reflexivity.
Qed.

Lemma evictionLoop_app ticks1 ticks2 c :
  evictionLoop evictExpired (ticks1 ++ ticks2) c
  = match evictionLoop evictExpired ticks1 c with
    | (tr, Waiting c') =>
        let '(tr', g) := evictionLoop evictExpired ticks2 c' in
        (tr ++ tr', g)
    | (tr, Crashed msg) => (tr, Crashed msg)
    end.
Proof.
  revert c. induction ticks1 as [|now rest IH]; intros c; simpl.
  - by destruct (evictionLoop evictExpired ticks2 c).
  - destruct (evictionTick evictExpired now c) as [tr [c'|msg]]; [|done].
    rewrite IH.
    destruct (evictionLoop evictExpired rest c') as [tr1 [c1|msg1]];
      [|done].
    destruct (evictionLoop evictExpired ticks2 c1) as [tr2 g].
    by rewrite app_assoc.
Qed.

Lemma evictionTick_inv now c tr c' :
  wf c ->
  evictionTick evictExpired now c = (tr, Ok c') ->
  ∃ s s',
    shards c !! Z.to_nat (nextShard c) = Some s ∧
    evictExpired now s = Ok s' ∧
    tr = reportTo (metricsRecorder (cfg c)) Eviction
           ++ [ShardCall (Z.to_nat (nextShard c)) CallEvictExpired] ∧
    c' = {| cfg := cfg c; ttl := ttl c;
            shards := <[Z.to_nat (nextShard c) := s']> (shards c);
            nextShard :=
              (nextShard c + 1) mod Z.of_nat (length (shards c)) |}.
Proof.
  intros Hwf Htick. destruct (wf_lookup c Hwf) as [s Hs].
  destruct (evictExpired now s) as [s'|msg] eqn:Hsweep.
  - rewrite (evictionTick_returns now c s s') in Htick by done.
    exists s, s'. by simplify_eq.
  - rewrite (evictionTick_panics now c s msg) in Htick by done.
    discriminate.
Qed.

Lemma evictionTick_wf now c tr c' :
  wf c ->
  evictionTick evictExpired now c = (tr, Ok c') ->
  wf c' ∧ length (shards c') = length (shards c) ∧ cfg c' = cfg c.
Proof.
  intros Hwf Htick.
  destruct (evictionTick_inv now c tr c' Hwf Htick)
    as (s & s' & _ & _ & _ & ->).
  destruct Hwf as (Hpos & Hmax & Hcur).
  unfold wf. cbn [shards nextShard cfg]. rewrite length_insert.
  repeat split; try done; apply Z.mod_pos_bound; lia.
Qed.

Lemma sweeps_app tr1 tr2 :
  sweeps (tr1 ++ tr2) = sweeps tr1 ++ sweeps tr2.
Proof. apply omap_app. Qed.

Lemma sweeps_reportTo (mr : option MetricsRecorder) m :
  sweeps (Clock := Clock) (reportTo mr m) = [].
Proof. by destruct mr. Qed.

(** From here on the sweep always returns, as a Go method without an
    error result does when nothing panics. *)
Hypothesis evictExpired_returns :
  ∀ now s, ∃ s', evictExpired now s = Ok s'.

Lemma evictionTick_total now c :
  wf c ->
  ∃ c',
    evictionTick evictExpired now c
    = (reportTo (metricsRecorder (cfg c)) Eviction
         ++ [ShardCall (Z.to_nat (nextShard c)) CallEvictExpired],
       Ok c') ∧
    wf c' ∧ length (shards c') = length (shards c) ∧ cfg c' = cfg c ∧
    nextShard c' = (nextShard c + 1) mod Z.of_nat (length (shards c)) ∧
    ∀ j, j ≠ Z.to_nat (nextShard c) -> shards c' !! j = shards c !! j.
Proof.
  intros Hwf. destruct (wf_lookup c Hwf) as [s Hs].
  destruct (evictExpired_returns now s) as [s' Hsweep].
  pose proof (evictionTick_returns now c s s' Hwf Hs Hsweep) as Htick.
  eexists. split; [exact Htick|].
  destruct (evictionTick_wf now c _ _ Hwf Htick) as (Hwf' & Hlen & Hcfg).
  split_and!; try done.
  intros j Hj. cbn [shards]. by rewrite list_lookup_insert_ne.
Qed.



End Tick.

(** *** Routing *)

Lemma getShard_wf c key :
  wf c ->
  getShard Sum64String c key
  = (reportTo (metricsRecorder (cfg c))
       (ShardIndex
          (uint64 (Sum64String key) mod Z.of_nat (length (shards c)))),
     Ok (Z.to_nat
           (uint64 (Sum64String key) mod Z.of_nat (length (shards c))))).
Proof.
  intros (Hpos & Hmax & Hcur). unfold getShard.
  rewrite (uint64_small (Z.of_nat (length (shards c)))) by lia.
  set (i := uint64 (Sum64String key) mod Z.of_nat (length (shards c))).
  assert (Hi : 0 <= i < Z.of_nat (length (shards c)))
    by (apply Z.mod_pos_bound; lia).
  unfold umod. destruct (Z.eqb_spec (Z.of_nat (length (shards c))) 0); [lia|].
  fold i. cbn [bind ret app].
  rewrite wrap_int_small by (unfold min_int, max_int in *; lia).
  unfold index. destruct (Z.ltb_spec i 0); [lia|].
  destruct (lookup_lt_is_Some_2 (shards c) (Z.to_nat i)) as [s Hs]; [lia|].
  rewrite Hs.
  destruct (metricsRecorder (cfg c)); reflexivity.
Qed.

Lemma getShard_in_range c key :
  wf c ->
  (Z.to_nat (uint64 (Sum64String key) mod Z.of_nat (length (shards c)))
   < length (shards c))%nat.
Proof.
  intros (Hpos & Hmax & Hcur).
  pose proof (Z.mod_pos_bound (uint64 (Sum64String key))
                (Z.of_nat (length (shards c)))).
  lia.
Qed.

(** *** The size *)

Lemma sizeLoop_spec (l : list (shard T Clock MetricsRecorder)) i sum :
  wrap_int sum = sum ->
  sizeLoop i l sum
  = ((fun j => ShardCall j CallSize) <$> seq i (length l),
     Ok (wrap_int (sum + sumSizes l))).
Proof.
  revert i sum. induction l as [|s l IH]; intros i sum Hsum.
  - cbn. unfold ret. by rewrite Z.add_0_r, Hsum.
  - cbn [sizeLoop]. rewrite IH by apply wrap_int_idem.
    unfold bind, call. cbn [app length seq fmap list_fmap].
    rewrite wrap_int_add. do 3 f_equal.
    unfold sumSizes. cbn [fmap list_fmap foldr]. lia.
Qed.

Lemma Size_wraps c :
  Size c
  = ((fun j => ShardCall j CallSize) <$> seq 0 (length (shards c)),
     Ok (wrap_int (sumSizes (shards c)))).
Proof. unfold Size. by rewrite sizeLoop_spec. Qed.

Lemma sumSizes_nonneg (l : list (shard T Clock MetricsRecorder)) :
  0 <= sumSizes l.
Proof.
  induction l as [|s l IH]; [done|].
  unfold sumSizes in *. cbn. unfold shard_size at 1. lia.
Qed.

(** *** The lifetime of a client *)

Lemma shard_evictExpired_returns now (s : shard T Clock MetricsRecorder) :
  ∃ s', shard_evictExpired now s = Ok s'.
Proof. by eexists. Qed.

Lemma fmap_alter_same {A B} (f : A -> B) (g : A -> A) (i : nat) (l : list A) :
  (∀ x, f (g x) = f x) -> f <$> alter g i l = f <$> l.
Proof.
  intros Hg. revert i. induction l as [|x l IH]; intros [|i]; cbn;
    by rewrite ?Hg, ?IH.
Qed.

Lemma fmap_insert_same {A B} (f : A -> B) (i : nat) (x y : A) (l : list A) :
  l !! i = Some y -> f x = f y -> f <$> <[i:=x]> l = f <$> l.
Proof.
  intros Hy Hf. rewrite list_fmap_insert, Hf.
  apply list_insert_id. by rewrite list_lookup_fmap, Hy.
Qed.

Lemma shard_set_total now key v isMissing (s : shard T Clock MetricsRecorder) :
  ∃ tr s' fired,
    shard_set forcedVictims now key v isMissing s = (tr, Ok (s', fired)) ∧
    capacity s' = capacity s.
Proof.
  unfold shard_set.
  destruct (Z.of_nat (size (<[key:=mkEntry v now isMissing]> (entries s)))
            <=? capacity s).
  - by eexists _, _, _.
  - destruct (metricsRecorder (shardCfg s)); by eexists _, _, _.
Qed.


(** Every operation returns, and leaves the configuration, the number of
    shards and the capacity of each shard as they were. *)
Lemma step_total op c :
  wf c ->
  ∃ tr c',
    step Sum64String forcedVictims shard_evictExpired op c = (tr, Ok c') ∧
    wf c' ∧ length (shards c') = length (shards c) ∧ cfg c' = cfg c ∧
    capacity <$> shards c' = capacity <$> shards c.
Proof.
  intros Hwf. pose proof Hwf as (Hpos & Hmax & Hcur).
  destruct op as [now|key|now key v m| |key|hit]; cbn [step].
  - destruct (wf_lookup c Hwf) as [s Hs].
    pose proof (evictionTick_returns shard_evictExpired now c s _ Hwf Hs eq_refl)
      as Htick.
    destruct (evictionTick_wf _ now c _ _ Hwf Htick) as (Hwf' & Hlen & Hcfg).
    eexists _, _. split; [exact Htick|]. split_and!; try (done || lia).
    cbn [shards]. by apply fmap_insert_same with s.
  - unfold Delete. rewrite getShard_wf by done. cbn [bind ret call app].
    eexists _, _. split; [reflexivity|].
    unfold wf, with_shards. cbn [shards nextShard cfg].
    rewrite length_alter. split_and!; try (done || lia).
    by apply fmap_alter_same.
  - unfold set. rewrite getShard_wf by done. cbn [bind ret call app].
    pose proof (getShard_in_range c key Hwf) as Hi.
    set (i := Z.to_nat _) in *.
    destruct (lookup_lt_is_Some_2 (shards c) i Hi) as [s Hs].
    unfold index. destruct (Z.ltb_spec (Z.of_nat i) 0); [lia|].
    rewrite Nat2Z.id, Hs. cbn [bind ret call app].
    destruct (shard_set_total now key v m s) as (tr & s' & fired & Hset & Hcap).
    rewrite Hset. cbn [bind ret call app fst].
    eexists _, _. split; [reflexivity|].
    unfold wf, with_shards. cbn [shards nextShard cfg].
    rewrite length_insert. split_and!; try (done || lia).
    by apply fmap_insert_same with s.
  - rewrite Size_wraps. cbn [bind ret]. by eexists _, _.
  - rewrite getShard_wf by done. cbn [bind ret]. by eexists _, _.
  - unfold reportCacheHits.
    destruct (metricsRecorder (cfg c)); [destruct hit|];
      cbn [negb bind ret call]; by eexists _, _.
Qed.

Lemma run_total ops c :
  wf c ->
  ∃ tr c',
    run Sum64String forcedVictims shard_evictExpired ops c = (tr, Ok c') ∧
    wf c' ∧ length (shards c') = length (shards c) ∧ cfg c' = cfg c ∧
    capacity <$> shards c' = capacity <$> shards c.
Proof.
  revert c. induction ops as [|op ops IH]; intros c Hwf.
  - by exists [], c.
  - destruct (step_total op c Hwf) as (tr1 & c1 & Hstep & Hwf1 & Hl1 & Hc1 & Hk1).
    destruct (IH c1 Hwf1) as (tr2 & c2 & Hrun & Hwf2 & Hl2 & Hc2 & Hk2).
    exists (tr1 ++ tr2), c2. cbn [run]. rewrite Hstep. cbn [bind].
    rewrite Hrun. split; [done|]. split_and!; congruence.
Qed.

Lemma constructed_wf capacity numShards ttl evictionPercentage opts :
  0 < numShards <= max_int ->
  wf (constructed (T := T) NewClock capacity numShards ttl
        evictionPercentage opts).
Proof.
  intros Hn. unfold wf, constructed. cbn [shards nextShard].
  rewrite length_replicate. lia.
Qed.

Lemma New_wf capacity numShards ttl evictionPercentage opts tr c :
  New NewClock capacity numShards ttl evictionPercentage opts = (tr, Ok c) ->
  wf c.
Proof.
  intros HNew.
  destruct (New_inv _ _ _ _ _ _ _ HNew) as ((Hn & _) & Hmax & _ & ->).
  apply constructed_wf. lia.
Qed.

(** *** The eviction scheduler *)


Lemma applyOptions_interval opts (cfg0 : Config Clock MetricsRecorder) :
  Forall (fun opt : Option Clock MetricsRecorder =>
            ∀ cfg, evictionInterval (opt cfg) = evictionInterval cfg) opts ->
  evictionInterval (applyOptions opts cfg0) = evictionInterval cfg0.
Proof.
  intros Hopts. revert cfg0. unfold applyOptions.
  induction Hopts as [|opt opts Hopt _ IH]; intros cfg0; [done|].
  cbn [foldl]. by rewrite IH, Hopt.
Qed.

(** C4: when no option overrides the interval, the ticker of the eviction
    goroutine is created with the period [ttl / numShards] (integer
    division), so [numShards] periods fall short of one TTL by less than
    [numShards] nanoseconds. *)
Theorem default_tick_period capacity numShards ttl evictionPercentage opts
    tr c :
  New NewClock (T := T) capacity numShards ttl evictionPercentage opts
  = (tr, Ok c) ->
  Forall (fun opt : Option Clock MetricsRecorder =>
            ∀ cfg, evictionInterval (opt cfg) = evictionInterval cfg) opts ->
  evictionInterval (cfg c) = ttl / numShards ∧
  Z.quot ttl numShards = ttl / numShards ∧
  (∀ evictExpired ticks,
     head (evictionRoutine evictExpired ticks c).1
     = Some (NewTicker (clock (cfg c)) (ttl / numShards))) ∧
  numShards * (ttl / numShards) <= ttl
    < numShards * (ttl / numShards) + numShards.
Proof.
  intros HNew Hopts.
  destruct (New_inv _ _ _ _ _ _ _ HNew) as ((Hn & Ht & _) & _ & _ & ->).
  assert (Hq : Z.quot ttl numShards = ttl / numShards)
    by (apply Z.quot_div_nonneg; lia).
  assert (Hi : evictionInterval
                 (cfg (constructed (T := T) NewClock capacity numShards ttl
                         evictionPercentage opts))
               = ttl / numShards).
  { unfold constructed. cbn [cfg].
    by rewrite applyOptions_interval. }
  split_and!; try done.
  - intros evictExpired ticks. unfold evictionRoutine.
    destruct (evictionLoop evictExpired ticks _) as [tr' g].
    cbn [fst head]. by rewrite Hi.
  - apply Z.mul_div_le. lia.
  - pose proof (Z.mul_succ_div_gt ttl numShards). lia.
Qed.

(** *** The aggregate size *)

(** C5: [Size] asks every shard for its size once, in order, and returns
    the sum of the answers whenever that sum is an [int] (as it is for
    every cache that fits in memory). *)
Theorem Size_sums_shards c :
  sumSizes (shards c) <= max_int ->
  Size c
  = ((fun i => ShardCall i CallSize) <$> seq 0 (length (shards c)),
     Ok (sumSizes (shards c))) ∧
  sized (Size c).1 = seq 0 (length (shards c)).
Proof.
  intros Hfits. rewrite Size_wraps.
  rewrite wrap_int_small
    by (pose proof (sumSizes_nonneg (shards c)); unfold min_int; lia).
  split; [done|]. cbn [fst]. unfold sized.
  generalize 0%nat. induction (length (shards c)) as [|n IH]; intros i;
    [done|].
  cbn. by rewrite IH.
Qed.

(** *** Routing, again *)

(** C3: [getShard] computes [hash(key) mod numShards], reports that index
    to the metrics recorder of the client, and returns the shard at that
    index; the answer depends on the key and the number of shards only, and
    is the same after any operations on the client. *)
Theorem getShard_deterministic c key :
  wf c ->
  getShard Sum64String c key
  = (reportTo (metricsRecorder (cfg c))
       (ShardIndex
          (uint64 (Sum64String key) mod Z.of_nat (length (shards c)))),
     Ok (Z.to_nat
           (uint64 (Sum64String key) mod Z.of_nat (length (shards c))))) ∧
  (∀ c2, wf c2 -> length (shards c2) = length (shards c) ->
         (getShard Sum64String c2 key).2 = (getShard Sum64String c key).2) ∧
  (∀ ops, ∃ tr c',
     run Sum64String forcedVictims shard_evictExpired ops c = (tr, Ok c') ∧
     getShard Sum64String c' key = getShard Sum64String c key).
Proof.
  intros Hwf. split_and!.
  - by apply getShard_wf.
  - intros c2 Hwf2 Hlen. rewrite !getShard_wf by done. cbn [snd].
    by rewrite Hlen.
  - intros ops.
    destruct (run_total ops c Hwf) as (tr & c' & Hrun & Hwf' & Hlen & Hcfg & _).
    exists tr, c'. split; [done|].
    rewrite !getShard_wf by done. by rewrite Hlen, Hcfg.
Qed.

(** C10: on a client built by [New], whatever operations have run since,
    the index computed by [getShard] is inside the shard slice: the slice
    access does not panic and [getShard] returns one of the client's
    shards. *)
Theorem getShard_in_bounds capacity numShards ttl evictionPercentage opts
    tr0 c0 :
  New NewClock (T := T) capacity numShards ttl evictionPercentage opts
  = (tr0, Ok c0) ->
  ∀ ops, ∃ tr c,
    run Sum64String forcedVictims shard_evictExpired ops c0 = (tr, Ok c) ∧
    length (shards c) = Z.to_nat numShards ∧ 0 < numShards ∧
    ∀ key, ∃ tr' i s,
      getShard Sum64String c key = (tr', Ok i) ∧
      Z.of_nat i = uint64 (Sum64String key) mod Z.of_nat (length (shards c)) ∧
      (i < length (shards c))%nat ∧
      shards c !! i = Some s.
Proof.
  intros HNew ops. pose proof (New_wf _ _ _ _ _ _ _ HNew) as Hwf0.
  destruct (New_inv _ _ _ _ _ _ _ HNew) as ((Hn & _) & _ & _ & Hc0).
  destruct (run_total ops c0 Hwf0) as (tr & c & Hrun & Hwf & Hlen & _).
  exists tr, c. split; [done|]. split_and!.
  - rewrite Hlen, Hc0. unfold constructed. cbn [shards].
    apply length_replicate.
  - lia.
  - intros key. pose proof (getShard_in_range c key Hwf) as Hi.
    destruct (lookup_lt_is_Some_2 (shards c) _ Hi) as [s Hs].
    eexists _, _, s. split; [by apply getShard_wf|].
    split_and!; try done.
    destruct Hwf as (Hpos & _).
    pose proof (Z.mod_pos_bound (uint64 (Sum64String key))
                  (Z.of_nat (length (shards c)))).
    lia.
Qed.

(** *** An absent recorder *)

(** C6: with no metrics recorder configured, the eviction tick, [getShard]
    and [reportCacheHits] make no call on a recorder and return normally. *)
Theorem nil_recorder_is_skipped c :
  wf c ->
  metricsRecorder (cfg c) = None ->
  (∀ now, ∃ c',
     evictionTick shard_evictExpired now c
     = ([ShardCall (Z.to_nat (nextShard c)) CallEvictExpired], Ok c')) ∧
  (∀ key, ∃ i, getShard Sum64String c key = ([], Ok i)) ∧
  (∀ cacheHit, reportCacheHits c cacheHit = ([], Ok tt)).
Proof.
  intros Hwf Hnil. split_and!.
  - intros now.
    destruct (evictionTick_total _ shard_evictExpired_returns now c Hwf)
      as (c' & Htick & _).
    rewrite Hnil in Htick. by exists c'.
  - intros key. rewrite getShard_wf, Hnil by done. by eexists.
  - intros cacheHit. unfold reportCacheHits. by rewrite Hnil.
Qed.

(** *** The shards of a client *)

(** C7: a successful [New] with total capacity [total] creates exactly
    [numShards] shards, each of capacity [total / numShards] (integer
    division); no operation on the client changes the number of shards or
    the capacity of a shard. *)
Theorem shards_are_fixed total numShards ttl evictionPercentage opts
    tr0 c0 :
  New NewClock (T := T) total numShards ttl evictionPercentage opts
  = (tr0, Ok c0) ->
  Z.of_nat (length (shards c0)) = numShards ∧
  Forall (fun s => capacity s = total / numShards) (shards c0) ∧
  Z.quot total numShards = total / numShards ∧
  ∀ ops, ∃ tr c,
    run Sum64String forcedVictims shard_evictExpired ops c0 = (tr, Ok c) ∧
    Z.of_nat (length (shards c)) = numShards ∧
    Forall (fun s => capacity s = total / numShards) (shards c).
Proof.
  intros HNew. pose proof (New_wf _ _ _ _ _ _ _ HNew) as Hwf0.
  destruct (New_inv _ _ _ _ _ _ _ HNew) as ((Hn & _ & _ & Hcap) & _ & _ & Hc0).
  assert (Hq : Z.quot total numShards = total / numShards)
    by (apply Z.quot_div_nonneg; lia).
  assert (Hlen0 : Z.of_nat (length (shards c0)) = numShards).
  { rewrite Hc0. unfold constructed. cbn [shards].
    rewrite length_replicate. lia. }
  assert (Hcap0 : Forall (fun s => capacity s = total / numShards)
                    (shards c0)).
  { rewrite Hc0. unfold constructed. cbn [shards]. rewrite <- Hq.
    apply Forall_replicate. reflexivity. }
  split_and!; try done.
  intros ops.
  destruct (run_total ops c0 Hwf0) as (tr & c & Hrun & _ & Hlen & _ & Hcaps).
  exists tr, c. split_and!; try done.
  - by rewrite Hlen.
  - assert (Hc : Forall (fun k => k = total / numShards)
                   (capacity <$> shards c0)) by (by apply Forall_fmap).
    rewrite <- Hcaps in Hc. by apply Forall_fmap in Hc.
Qed.

Lemma applyOptions_keeps (P : Config Clock MetricsRecorder -> Prop) opts
    (cfg0 : Config Clock MetricsRecorder) :
  Forall (fun opt : Option Clock MetricsRecorder =>
            ∀ cfg, P cfg -> P (opt cfg)) opts ->
  P cfg0 ->
  P (applyOptions opts cfg0).
Proof.
  intros Hopts. revert cfg0. unfold applyOptions.
  induction Hopts as [|opt opts Hopt _ IH]; intros cfg0 Hcfg0; [done|].
  cbn [foldl]. apply IH. by apply Hopt.
Qed.

Lemma applyOptions_last (P : Config Clock MetricsRecorder -> Prop) opts1
    (opt : Option Clock MetricsRecorder) opts2
    (cfg0 : Config Clock MetricsRecorder) :
  (∀ cfg, P (opt cfg)) ->
  Forall (fun o : Option Clock MetricsRecorder =>
            ∀ cfg, P cfg -> P (o cfg)) opts2 ->
  P (applyOptions (opts1 ++ opt :: opts2) cfg0).
Proof.
  intros Hopt Hopts2. unfold applyOptions. rewrite foldl_app. cbn [foldl].
  by apply (applyOptions_keeps P opts2).
Qed.

(** C9: [New] runs every option, in order, on the default configuration
    before it creates a shard, and gives the resulting configuration to each
    shard it then creates: the client and all its shards hold that same
    configuration, so whatever an option sets, and no later option undoes,
    holds in every shard. *)
Theorem options_before_shards capacity numShards ttl evictionPercentage opts
    tr c :
  New NewClock (T := T) capacity numShards ttl evictionPercentage opts
  = (tr, Ok c) ->
  cfg c
  = foldl (fun cfg0 (opt : Option Clock MetricsRecorder) => opt cfg0)
      {| clock := NewClock;
         evictionInterval := Z.quot ttl numShards;
         metricsRecorder := None;
         refreshesEnabled := false;
         minRefreshTime := 0;
         maxRefreshTime := 0;
         retryBaseDelay := 0;
         storeMisses := false;
         bufferRefreshes := false;
         batchSize := 0;
         bufferTimeout := 0;
         passthroughPercentage := 100;
         passthroughBuffering := false;
         useRelativeTimeKeyFormat := false;
         keyTruncation := 0;
         getSize := Some ClientSize |}
      opts ∧
  shards c
  = replicate (Z.to_nat numShards)
      (newShard (Z.quot capacity numShards) ttl evictionPercentage (cfg c)) ∧
  (∀ s, s ∈ shards c -> shardCfg s = cfg c) ∧
  (∀ (P : Config Clock MetricsRecorder -> Prop) opts1 opt opts2,
     opts = opts1 ++ opt :: opts2 ->
     (∀ cfg0, P (opt cfg0)) ->
     Forall (fun o : Option Clock MetricsRecorder =>
               ∀ cfg0, P cfg0 -> P (o cfg0)) opts2 ->
     ∀ s, s ∈ shards c -> P (shardCfg s)).
Proof.
  intros HNew.
  destruct (New_inv _ _ _ _ _ _ _ HNew) as (_ & _ & _ & ->).
  unfold constructed. cbn [cfg shards].
  assert (Hshards :
    ∀ s, s ∈ replicate (Z.to_nat numShards)
               (newShard (T := T) (Z.quot capacity numShards) ttl
                  evictionPercentage
                  (applyOptions opts
                     (defaultConfig NewClock (Z.quot ttl numShards)))) ->
         shardCfg s
         = applyOptions opts (defaultConfig NewClock (Z.quot ttl numShards))).
  { intros s Hs. apply elem_of_replicate in Hs as [-> _]. reflexivity. }
  split_and!; try done.
  intros P opts1 opt opts2 -> Hopt Hopts2 s Hs.
  rewrite (Hshards s Hs). by apply applyOptions_last.
Qed.

(** *** A sweep that panics *)

Section Containment.

Variable evictExpired :
  Time -> shard T Clock MetricsRecorder ->
  Outcome (shard T Clock MetricsRecorder).

Lemma evictionLoop_wf ticks c tr c' :
  wf c ->
  evictionLoop evictExpired ticks c = (tr, Waiting c') ->
  wf c'.
Proof.
  revert c tr. induction ticks as [|now rest IH]; intros c tr Hwf Hloop.
  - cbn in Hloop. by simplify_eq.
  - cbn [evictionLoop] in Hloop.
    destruct (evictionTick evictExpired now c) as [tr1 [c1|msg]] eqn:Htick;
      [|discriminate].
    destruct (evictionTick_wf _ now c _ _ Hwf Htick) as (Hwf1 & _).
    destruct (evictionLoop evictExpired rest c1) as [tr2 g] eqn:Hrest.
    simplify_eq. by eapply IH.
Qed.

Lemma evictionLoop_total ticks c :
  (∀ now s, ∃ s', evictExpired now s = Ok s') ->
  wf c ->
  ∃ tr c',
    evictionLoop evictExpired ticks c = (tr, Waiting c') ∧
    length (sweeps tr) = length ticks.
Proof.
  intros Hret. revert c. induction ticks as [|now rest IH]; intros c Hwf.
  - by exists [], c.
  - destruct (evictionTick_total _ Hret now c Hwf)
      as (c1 & Htick & Hwf1 & _).
    destruct (IH c1 Hwf1) as (tr2 & c2 & Hloop & Hlen).
    cbn [evictionLoop]. rewrite Htick, Hloop. eexists _, c2.
    split; [reflexivity|].
    rewrite !sweeps_app, sweeps_reportTo, !length_app, Hlen.
    reflexivity.
Qed.

(** C8, as the code has it: the loop takes every tick for as long as each
    sweep returns; a panic raised by the sweep of one shard is not
    contained: it unwinds the loop, the deferred [stop] runs, and the
    ticks that follow are not taken. *)
Theorem sweep_panic_unwinds_loop :
  (∀ c ticks,
     (∀ now s, ∃ s', evictExpired now s = Ok s') ->
     wf c ->
     ∃ tr c',
       evictionLoop evictExpired ticks c = (tr, Waiting c') ∧
       length (sweeps tr) = length ticks) ∧
  (∀ c ticks now rest tr c1 s msg,
     wf c ->
     evictionLoop evictExpired ticks c = (tr, Waiting c1) ->
     shards c1 !! Z.to_nat (nextShard c1) = Some s ->
     evictExpired now s = Panic msg ->
     evictionLoop evictExpired (ticks ++ now :: rest) c
     = (tr ++ reportTo (metricsRecorder (cfg c1)) Eviction
           ++ [ShardCall (Z.to_nat (nextShard c1)) CallEvictExpired;
               StopTicker],
        Crashed msg)).
Proof.
  split.
  - intros c ticks Hret Hwf. by apply evictionLoop_total.
  - intros c ticks now rest tr c1 s msg Hwf Hloop Hs Hpanic.
    pose proof (evictionLoop_wf ticks c tr c1 Hwf Hloop) as Hwf1.
    rewrite evictionLoop_app, Hloop. cbn [evictionLoop].
    rewrite (evictionTick_panics _ now c1 s msg) by done.
    by rewrite <- !app_assoc.
Qed.

End Containment.

End Properties.

(** ** The theorems at work on concrete clients *)

Lemma plain_wf : wf Sample.plain.
Proof. apply constructed_wf. unfold max_int. lia. Defined.

Lemma metered_wf : wf Sample.metered.
Proof. apply constructed_wf. unfold max_int. lia. Defined.

Lemma New_validates_witness :
  (2 > 0 ∧ 1000 > 0 ∧ 0 <= 50 <= 100 ∧ 10 >= 2) ∧
  ∃ msg,
    New (T := nat) (MetricsRecorder := nat) 0%nat 10 0 1000 50 []
    = ([], Panic msg).
Proof.
  split.
  - apply (proj1 (New_validates 0%nat 10 2 1000 50 [])
             [GoEvictions] Sample.plain).
    reflexivity.
  - apply (proj2 (New_validates 0%nat 10 0 1000 50 [])).
    intros (H & _). lia.
Defined.


Lemma getShard_deterministic_witness :
  wf Sample.metered ∧
  getShard Sample.hashLen Sample.metered "abc"
  = ([Metric 7%nat (ShardIndex 1)], Ok 1%nat).
Proof.
  split; [exact metered_wf|].
  exact (proj1 (getShard_deterministic Sample.hashLen Sample.noVictims
                  Sample.metered "abc" metered_wf)).
Defined.

Lemma default_tick_period_witness :
  New 0%nat 10 2 1000 50 [Sample.With 1%nat (Some 7%nat)]
  = ([GoEvictions], Ok Sample.metered) ∧
  evictionInterval (cfg Sample.metered) = 500.
Proof.
  split; [reflexivity|].
  assert (Hkeeps :
            Forall (fun opt : Option nat nat =>
                      ∀ cfg, evictionInterval (opt cfg) = evictionInterval cfg)
              [Sample.With 1%nat (Some 7%nat)])
    by (repeat constructor).
  exact (proj1 (default_tick_period 0%nat 10 2 1000 50
                  [Sample.With 1%nat (Some 7%nat)]
                  [GoEvictions] Sample.metered eq_refl Hkeeps)).
Defined.

Lemma Size_sums_shards_witness :
  sumSizes (shards Sample.stocked) <= max_int ∧
  Size Sample.stocked = ([ShardCall 0 CallSize; ShardCall 1 CallSize], Ok 3).
Proof.
  assert (H : sumSizes (shards Sample.stocked) <= max_int)
    by (vm_compute; discriminate).
  split; [exact H|].
  exact (proj1 (Size_sums_shards Sample.stocked H)).
Defined.

Lemma nil_recorder_is_skipped_witness :
  (wf Sample.plain ∧ metricsRecorder (cfg Sample.plain) = None) ∧
  reportCacheHits Sample.plain false = ([], Ok tt).
Proof.
  split; [split; [exact plain_wf|reflexivity]|].
  exact (proj2 (proj2 (nil_recorder_is_skipped Sample.hashLen Sample.plain
                         plain_wf eq_refl)) false).
Defined.

Lemma shards_are_fixed_witness :
  New 0%nat 10 2 1000 50 [] = ([GoEvictions], Ok Sample.plain) ∧
  Z.of_nat (length (shards Sample.plain)) = 2 ∧
  Forall (fun s => capacity s = 5) (shards Sample.plain).
Proof.
  split; [reflexivity|].
  pose proof (shards_are_fixed 0%nat Sample.hashLen Sample.noVictims
                10 2 1000 50 [] [GoEvictions] Sample.plain eq_refl)
    as (Hlen & Hcap & _).
  exact (conj Hlen Hcap).
Defined.

Lemma options_before_shards_witness :
  New 0%nat 10 2 1000 50
    [Sample.With 1%nat (Some 7%nat); Corner.WithStoreMisses;
     Corner.WithEvictionInterval 50]
  = ([GoEvictions], Ok Corner.tuned) ∧
  ∀ s, s ∈ shards Corner.tuned ->
       clock (shardCfg s) = 1%nat ∧
       metricsRecorder (shardCfg s) = Some 7%nat ∧
       storeMisses (shardCfg s) = true ∧
       evictionInterval (shardCfg s) = 50 ∧
       passthroughPercentage (shardCfg s) = 100.
Proof.
  split; [reflexivity|].
  pose proof (options_before_shards 0%nat 10 2 1000 50
                [Sample.With 1%nat (Some 7%nat); Corner.WithStoreMisses;
                 Corner.WithEvictionInterval 50]
                [GoEvictions] Corner.tuned eq_refl)
    as (Hcfg & _ & Hshards & Hset).
  intros s Hs.
  assert (Hmisses : storeMisses (shardCfg s) = true).
  { apply (Hset (fun cfg0 => storeMisses cfg0 = true)
             [Sample.With 1%nat (Some 7%nat)] Corner.WithStoreMisses
             [Corner.WithEvictionInterval 50] eq_refl (fun _ => eq_refl));
      [|exact Hs].
    apply Forall_cons_2; [|apply Forall_nil_2].
    intros cfg0 Hcfg0. exact Hcfg0. }
  rewrite (Hshards s Hs), Hcfg in *.
  split; [reflexivity|]. split; [reflexivity|]. split; [exact Hmisses|].
  split; reflexivity.
Defined.

Lemma getShard_in_bounds_witness :
  New 0%nat 10 2 1000 50 [] = ([GoEvictions], Ok Sample.plain) ∧
  ∃ tr c,
    run Sample.hashLen Sample.noVictims shard_evictExpired
      [OpTick 0; OpDelete "k"] Sample.plain = (tr, Ok c) ∧
    ∃ tr' i s,
      getShard Sample.hashLen c "abc" = (tr', Ok i) ∧
      (i < length (shards c))%nat ∧ shards c !! i = Some s.
Proof.
  split; [reflexivity|].
  destruct (getShard_in_bounds 0%nat Sample.hashLen Sample.noVictims
              10 2 1000 50 [] [GoEvictions] Sample.plain eq_refl
              [OpTick 0; OpDelete "k"])
    as (tr & c & Hrun & _ & _ & Hkeys).
  exists tr, c. split; [exact Hrun|].
  destruct (Hkeys "abc") as (tr' & i & s & Hget & _ & Hlt & Hs).
  exists tr', i, s. exact (conj Hget (conj Hlt Hs)).
Defined.

Lemma sweep_panic_unwinds_loop_witness :
  (wf Sample.plain ∧
   Sample.failingSweep 0 (newShard 5 1000 50 (cfg Sample.plain))
   = Panic "sweep failed") ∧
  evictionLoop Sample.failingSweep [0; 1; 2] Sample.plain
  = ([ShardCall 0 CallEvictExpired; StopTicker], Crashed "sweep failed").
Proof.
  split; [split; [exact plain_wf|reflexivity]|].
  exact (proj2 (sweep_panic_unwinds_loop Sample.failingSweep)
           Sample.plain [] 0 [1; 2] [] Sample.plain
           (newShard 5 1000 50 (cfg Sample.plain)) "sweep failed"
           plain_wf eq_refl eq_refl eq_refl).
Defined.

(** C8, as the claim has it, fails: three ticks arrive, the sweep of the
    first one panics, and the loop is gone after that single sweep; it is not
    waiting for the next tick and shard 1 is never swept. *)
Lemma sweep_panic_not_contained :
  evictionLoop Sample.failingSweep [0; 1; 2] Sample.plain
  = ([ShardCall 0 CallEvictExpired; StopTicker], Crashed "sweep failed") ∧
  ¬ ∃ tr c',
      evictionLoop Sample.failingSweep [0; 1; 2] Sample.plain
      = (tr, Waiting c').
Proof.
  split; [reflexivity|].
  intros (tr & c' & Hloop). discriminate Hloop.
Qed.

(** ** Further properties of the client *)

Section Further.

Context {T Clock MetricsRecorder : Type}.
Variable NewClock : Clock.
Variable Sum64String : string -> Z.
Variable forcedVictims : shard T Clock MetricsRecorder -> list string.

Implicit Types (c : Client T Clock MetricsRecorder)
               (opts : list (Option Clock MetricsRecorder))
               (tr : list (Call Clock MetricsRecorder)).

(** *** The schedule of the eviction loop *)

Lemma tickTrace_shift (mr : option MetricsRecorder) (n : nat) (cursor : Z)
    (k : nat) :
  (0 < n)%nat ->
  tickTrace (Clock := Clock) mr n ((cursor + 1) mod Z.of_nat n) k
  = tickTrace mr n cursor (S k).
Proof.
  intros Hn. unfold tickTrace. do 4 f_equal.
  rewrite Zplus_mod_idemp_l. f_equal. lia.
Qed.

Lemma tickTrace_first (mr : option MetricsRecorder) (n : nat) (cursor : Z) :
  0 <= cursor < Z.of_nat n ->
  tickTrace (Clock := Clock) mr n cursor 0
  = reportTo mr Eviction ++ [ShardCall (Z.to_nat cursor) CallEvictExpired].
Proof.
  intros Hc. unfold tickTrace. do 4 f_equal.
  rewrite Z.add_0_r. apply Z.mod_small. lia.
Qed.

Lemma tickTrace_never_stops (mr : option MetricsRecorder) (n : nat)
    (cursor : Z) (ks : list nat) :
  StopTicker ∉ concat (tickTrace (Clock := Clock) mr n cursor <$> ks).
Proof.
  induction ks as [|k ks IH]; cbn [fmap list_fmap concat].
  - apply not_elem_of_nil.
  - intros Hin. apply elem_of_app in Hin as [Hin|Hin]; [|by apply IH].
    unfold tickTrace in Hin. apply elem_of_app in Hin as [Hin|Hin].
    + destruct mr; cbn in Hin; [|by apply elem_of_nil in Hin].
      apply list_elem_of_singleton in Hin. discriminate.
    + apply list_elem_of_singleton in Hin. discriminate.
Qed.

(** X1: while the sweeps return, the loop never leaves: after any number of
    ticks it is waiting for the next one, it has not stopped the ticker, and
    its trace is, tick after tick, the report of an [Eviction] followed by
    the sweep of shard [(cursor + k) mod len(shards)]. *)
Theorem evictionLoop_schedule
    (evictExpired : Time -> shard T Clock MetricsRecorder ->
                    Outcome (shard T Clock MetricsRecorder))
    ticks c :
  (∀ now s, ∃ s', evictExpired now s = Ok s') ->
  wf c ->
  ∃ c',
    evictionLoop evictExpired ticks c
    = (concat (tickTrace (metricsRecorder (cfg c)) (length (shards c))
                 (nextShard c) <$> seq 0 (length ticks)),
       Waiting c') ∧
    (StopTicker ∉ (evictionLoop evictExpired ticks c).1) ∧
    nextShard c'
    = (nextShard c + Z.of_nat (length ticks)) mod Z.of_nat (length (shards c)) ∧
    length (shards c') = length (shards c) ∧
    cfg c' = cfg c.
Proof.
  intros Hret. revert c. induction ticks as [|now rest IH]; intros c Hwf.
  - exists c. cbn. split_and!; try done.
    + apply not_elem_of_nil.
    + destruct Hwf as (_ & _ & Hcur). rewrite Z.add_0_r, Z.mod_small; lia.
  - destruct (evictionTick_total _ Hret now c Hwf)
      as (c1 & Htick & Hwf1 & Hlen1 & Hcfg1 & Hnext1 & _).
    destruct (IH c1 Hwf1) as (c' & Hloop & _ & Hnext & Hlen & Hcfg).
    pose proof Hwf as (Hpos & _ & Hcur).
    assert (Htrace :
      evictionLoop evictExpired (now :: rest) c
      = (concat (tickTrace (metricsRecorder (cfg c)) (length (shards c))
                   (nextShard c) <$> seq 0 (length (now :: rest))),
         Waiting c')).
    { cbn [evictionLoop]. rewrite Htick, Hloop. f_equal.
      cbn [length seq fmap list_fmap concat].
      rewrite tickTrace_first by done. f_equal.
      rewrite Hcfg1, Hlen1, Hnext1, <- fmap_S_seq, <- list_fmap_compose.
      f_equal. apply list_fmap_ext. intros _ k _. cbn.
      by apply tickTrace_shift. }
    exists c'. split; [exact Htrace|]. split_and!.
    + rewrite Htrace. apply tickTrace_never_stops.
    + rewrite Hnext, Hlen1, Hnext1, Zplus_mod_idemp_l. f_equal.
      cbn [length]. lia.
    + congruence.
    + congruence.
Qed.

(** *** What one operation does to the client *)

Lemma shard_set_entries now key v isMissing
    (s s' : shard T Clock MetricsRecorder) tr fired :
  shard_set forcedVictims now key v isMissing s = (tr, Ok (s', fired)) ->
  ∀ k, is_Some (entries s' !! k) -> k = key ∨ is_Some (entries s !! k).
Proof.
  unfold shard_set. intros Hset k Hk.
  assert (Hins : ∀ e, is_Some (<[key:=e]> (entries s) !! k) ->
                      k = key ∨ is_Some (entries s !! k)).
  { intros e He. destruct (decide (key = k)) as [->|Hne]; [by left|].
    right. by rewrite lookup_insert_ne in He. }
  destruct (Z.of_nat (size (<[key:=mkEntry v now isMissing]> (entries s)))
            <=? capacity s).
  - unfold ret in Hset. simplify_eq. cbn in Hk. eauto.
  - assert (Hkept : ∃ victims,
              entries s'
              = foldr delete (<[key:=mkEntry v now isMissing]> (entries s))
                  victims).
    { destruct (metricsRecorder (shardCfg s));
        unfold bind, call, ret in Hset; simplify_eq; by eexists. }
    destruct Hkept as [victims Hkept]. rewrite Hkept in Hk.
    apply (Hins (mkEntry v now isMissing)).
    clear Hkept Hset. induction victims as [|x victims IH]; [done|].
    cbn [foldr] in Hk. apply IH.
    destruct (decide (x = k)) as [->|Hne].
    + rewrite lookup_delete_eq in Hk. by destruct Hk.
    + by rewrite lookup_delete_ne in Hk.
Qed.

Lemma step_cases op c :
  wf c ->
  ∃ tr c',
    step Sum64String forcedVictims shard_evictExpired op c = (tr, Ok c') ∧
    match op with
    | OpTick now =>
        ∃ s,
          shards c !! Z.to_nat (nextShard c) = Some s ∧
          c' = {| cfg := cfg c; ttl := ttl c;
                  shards :=
                    <[Z.to_nat (nextShard c) :=
                        with_entries s
                          (filter (fun kv => now <= createdAt kv.2 + shardTTL s)
                             (entries s))]> (shards c);
                  nextShard :=
                    (nextShard c + 1) mod Z.of_nat (length (shards c)) |}
    | OpDelete key =>
        c' = with_shards c
               (alter (shard_delete key)
                  (route Sum64String (length (shards c)) key) (shards c))
    | OpSet now key v m =>
        ∃ s trs s' fired,
          shards c !! route Sum64String (length (shards c)) key = Some s ∧
          shard_set forcedVictims now key v m s = (trs, Ok (s', fired)) ∧
          c' = with_shards c
                 (<[route Sum64String (length (shards c)) key := s']>
                    (shards c))
    | _ => c' = c
    end.
Proof.
  intros Hwf. pose proof Hwf as (Hpos & Hmax & Hcur).
  destruct op as [now|key|now key v m| |key|hit]; cbn [step].
  - destruct (wf_lookup c Hwf) as [s Hs].
    rewrite (evictionTick_returns shard_evictExpired now c s _ Hwf Hs eq_refl).
    eexists _, _. split; [reflexivity|]. by exists s.
  - unfold Delete. rewrite getShard_wf by done. cbn [bind ret call app].
    by eexists _, _.
  - unfold set. rewrite getShard_wf by done. cbn [bind ret call app].
    pose proof (getShard_in_range Sum64String c key Hwf) as Hi.
    fold (route Sum64String (length (shards c)) key) in *.
    set (i := route Sum64String (length (shards c)) key) in *.
    destruct (lookup_lt_is_Some_2 (shards c) i Hi) as [s Hs].
    unfold index. destruct (Z.ltb_spec (Z.of_nat i) 0); [lia|].
    rewrite Nat2Z.id, Hs. cbn [bind ret call app].
    destruct (shard_set_total forcedVictims now key v m s)
      as (trs & s' & fired & Hset & _).
    rewrite Hset. cbn [bind ret call app fst].
    eexists _, _. split; [reflexivity|]. by exists s, trs, s', fired.
  - rewrite Size_wraps. cbn [bind ret]. by eexists _, _.
  - rewrite getShard_wf by done. cbn [bind ret]. by eexists _, _.
  - unfold reportCacheHits.
    destruct (metricsRecorder (cfg c)); [destruct hit|];
      cbn [negb bind ret call]; by eexists _, _.
Qed.

Lemma step_placed op c :
  wf c ->
  placed Sum64String c ->
  ∃ tr c',
    step Sum64String forcedVictims shard_evictExpired op c = (tr, Ok c') ∧
    wf c' ∧ placed Sum64String c' ∧
    length (shards c') = length (shards c) ∧
    nextShard c'
    = match op with
      | OpTick _ => (nextShard c + 1) mod Z.of_nat (length (shards c))
      | _ => nextShard c
      end.
Proof.
  intros Hwf Hplaced.
  destruct (step_cases op c Hwf) as (tr & c' & Hstep & Hcase).
  destruct (step_total Sum64String forcedVictims op c Hwf)
    as (tr0 & c0 & Hstep0 & Hwf' & Hlen & _).
  rewrite Hstep in Hstep0. simplify_eq.
  exists tr0, c0. split; [done|]. split; [done|].
  destruct op as [now|key|now key v m| |key|hit].
  - destruct Hcase as (s & Hs & ->). cbn [shards nextShard] in *.
    split_and!; try done.
    intros j s0 k Hj Hk. cbn [shards] in Hj |- *. rewrite length_insert.
    destruct (decide (j = Z.to_nat (nextShard c))) as [->|Hne].
    + rewrite list_lookup_insert_eq in Hj by (by eapply lookup_lt_Some).
      simplify_eq. cbn [entries with_entries] in Hk.
      destruct Hk as [e He]. apply map_lookup_filter_Some in He as [He _].
      by eapply Hplaced.
    + rewrite list_lookup_insert_ne in Hj by done. by eapply Hplaced.
  - subst c0. unfold with_shards in *. cbn [shards nextShard] in *.
    split_and!; try done.
    intros j s0 k Hj Hk. cbn [shards] in Hj |- *. rewrite length_alter.
    set (i := route Sum64String (length (shards c)) key) in *.
    destruct (decide (j = i)) as [->|Hne].
    + rewrite list_lookup_alter_eq in Hj.
      destruct (shards c !! i) as [s|] eqn:Hs; [|done].
      cbn in Hj. simplify_eq. cbn [entries shard_delete with_entries] in Hk.
      destruct Hk as [e He]. apply lookup_delete_Some in He as [_ He].
      by eapply Hplaced.
    + rewrite list_lookup_alter_ne in Hj by done. by eapply Hplaced.
  - destruct Hcase as (s & trs & s' & fired & Hs & Hset & ->).
    unfold with_shards in *. cbn [shards nextShard] in *.
    split_and!; try done.
    intros j s0 k Hj Hk. cbn [shards] in Hj |- *. rewrite length_insert.
    set (i := route Sum64String (length (shards c)) key) in *.
    destruct (decide (j = i)) as [->|Hne].
    + rewrite list_lookup_insert_eq in Hj by (by eapply lookup_lt_Some).
      simplify_eq.
      destruct (shard_set_entries _ _ _ _ _ _ _ _ Hset k Hk) as [->|Hold];
        [done|].
      by eapply Hplaced.
    + rewrite list_lookup_insert_ne in Hj by done. by eapply Hplaced.
  - by subst.
  - by subst.
  - by subst.
Qed.

Lemma run_placed ops c :
  wf c ->
  placed Sum64String c ->
  ∃ tr c',
    run Sum64String forcedVictims shard_evictExpired ops c = (tr, Ok c') ∧
    wf c' ∧ placed Sum64String c' ∧
    length (shards c') = length (shards c) ∧
    nextShard c'
    = (nextShard c + Z.of_nat (countTicks ops))
        mod Z.of_nat (length (shards c)).
Proof.
  revert c. induction ops as [|op ops IH]; intros c Hwf Hplaced.
  - exists [], c. cbn [run countTicks]. split_and!; try done.
    destruct Hwf as (_ & _ & Hcur). rewrite Z.add_0_r, Z.mod_small; lia.
  - destruct (step_placed op c Hwf Hplaced)
      as (tr1 & c1 & Hstep & Hwf1 & Hpl1 & Hlen1 & Hnext1).
    destruct (IH c1 Hwf1 Hpl1) as (tr2 & c2 & Hrun & Hwf2 & Hpl2 & Hlen2 & Hnext2).
    exists (tr1 ++ tr2), c2. cbn [run]. rewrite Hstep. cbn [bind].
    rewrite Hrun. split; [done|]. split_and!; try done; [congruence|].
    rewrite Hnext2, Hlen1, Hnext1.
    destruct op; cbn [countTicks];
      rewrite ?Zplus_mod_idemp_l; f_equal; lia.
Qed.

Lemma constructed_placed capacity numShards ttl evictionPercentage opts :
  placed Sum64String
    (constructed (T := T) NewClock capacity numShards ttl evictionPercentage
       opts).
Proof.
  intros j s key Hj [e He]. unfold constructed in Hj. cbn [shards] in Hj.
  apply lookup_replicate in Hj as [-> _]. cbn in He.
  by rewrite lookup_empty in He.
Qed.

(** *** The cursor and the callers' operations *)

(** X2: on a client built by [New], the cursor is the number of ticks taken
    so far modulo [numShards], whatever [Delete], [set], [Size], [getShard]
    and [reportCacheHits] calls ran in between; the next tick sweeps that
    shard. *)
Theorem cursor_counts_ticks capacity numShards ttl evictionPercentage opts
    tr0 c0 :
  New NewClock (T := T) capacity numShards ttl evictionPercentage opts
  = (tr0, Ok c0) ->
  ∀ ops, ∃ tr c,
    run Sum64String forcedVictims shard_evictExpired ops c0 = (tr, Ok c) ∧
    nextShard c = Z.of_nat (countTicks ops) mod numShards ∧
    ∀ now, ∃ c',
      evictionTick shard_evictExpired now c
      = (reportTo (metricsRecorder (cfg c)) Eviction
           ++ [ShardCall (Z.to_nat (Z.of_nat (countTicks ops) mod numShards))
                 CallEvictExpired],
         Ok c').
Proof.
  intros HNew ops. pose proof (New_wf NewClock _ _ _ _ _ _ _ HNew) as Hwf0.
  destruct (New_inv NewClock _ _ _ _ _ _ _ HNew) as ((Hn & _) & _ & _ & Hc0).
  assert (Hpl0 : placed Sum64String c0)
    by (rewrite Hc0; apply constructed_placed).
  destruct (run_placed ops c0 Hwf0 Hpl0)
    as (tr & c & Hrun & Hwf & _ & Hlen & Hnext).
  assert (Hlen0 : Z.of_nat (length (shards c0)) = numShards).
  { rewrite Hc0. unfold constructed. cbn [shards].
    rewrite length_replicate. lia. }
  assert (Hcur0 : nextShard c0 = 0) by (by rewrite Hc0).
  rewrite Hlen0, Hcur0, Z.add_0_l in Hnext.
  exists tr, c. split_and!; try done.
  intros now.
  destruct (evictionTick_total _ shard_evictExpired_returns now c Hwf)
    as (c' & Htick & _).
  exists c'. by rewrite <- Hnext.
Qed.

(** *** Where a key lives *)

(** X3: on a client built by [New], after any operations, every cached key
    sits in the shard [getShard] routes it to, and so [Delete(key)] leaves no
    shard holding [key]. *)
Theorem Delete_uncaches capacity numShards ttl evictionPercentage opts
    tr0 c0 :
  New NewClock (T := T) capacity numShards ttl evictionPercentage opts
  = (tr0, Ok c0) ->
  ∀ ops, ∃ tr c,
    run Sum64String forcedVictims shard_evictExpired ops c0 = (tr, Ok c) ∧
    placed Sum64String c ∧
    ∀ key, ∃ tr' c',
      Delete Sum64String c key = (tr', Ok c') ∧ uncached key c'.
Proof.
  intros HNew ops. pose proof (New_wf NewClock _ _ _ _ _ _ _ HNew) as Hwf0.
  destruct (New_inv NewClock _ _ _ _ _ _ _ HNew) as (_ & _ & _ & Hc0).
  assert (Hpl0 : placed Sum64String c0)
    by (rewrite Hc0; apply constructed_placed).
  destruct (run_placed ops c0 Hwf0 Hpl0) as (tr & c & Hrun & Hwf & Hpl & _).
  exists tr, c. split_and!; try done.
  intros key.
  destruct (step_cases (OpDelete key) c Hwf) as (tr' & c' & Hstep & ->).
  cbn [step] in Hstep. eexists _, _. split; [exact Hstep|].
  intros j s Hj. cbn [shards with_shards] in Hj.
  set (i := route Sum64String (length (shards c)) key) in *.
  destruct (decide (j = i)) as [->|Hne].
  - rewrite list_lookup_alter_eq in Hj.
    destruct (shards c !! i) as [s0|]; [|done].
    cbn in Hj. simplify_eq. cbn. apply lookup_delete_eq.
  - rewrite list_lookup_alter_ne in Hj by done.
    destruct (entries s !! key) as [e|] eqn:He; [|done].
    exfalso. apply Hne. eapply Hpl; [exact Hj|]. by rewrite He.
Qed.

(** X4: [Delete] and [set] act on one shard only, the one [getShard]
    computes for the key: they report its index, call the shard, and leave
    every other shard, the cursor, the TTL and the configuration as they
    were. *)
Theorem routed_shard_only c key :
  wf c ->
  (∃ c',
     Delete Sum64String c key
     = (reportTo (metricsRecorder (cfg c))
          (ShardIndex
             (Z.of_nat (route Sum64String (length (shards c)) key)))
          ++ [ShardCall (route Sum64String (length (shards c)) key)
                (CallDelete key)],
        Ok c') ∧
     cfg c' = cfg c ∧ ttl c' = ttl c ∧ nextShard c' = nextShard c ∧
     length (shards c') = length (shards c) ∧
     ∀ j, j ≠ route Sum64String (length (shards c)) key ->
          shards c' !! j = shards c !! j) ∧
  (∀ now v isMissingRecord, ∃ trs c' fired,
     set Sum64String forcedVictims now c key v isMissingRecord
     = (reportTo (metricsRecorder (cfg c))
          (ShardIndex
             (Z.of_nat (route Sum64String (length (shards c)) key)))
          ++ [ShardCall (route Sum64String (length (shards c)) key)
                (CallSet key isMissingRecord)]
          ++ trs,
        Ok (c', fired)) ∧
     cfg c' = cfg c ∧ ttl c' = ttl c ∧ nextShard c' = nextShard c ∧
     length (shards c') = length (shards c) ∧
     ∀ j, j ≠ route Sum64String (length (shards c)) key ->
          shards c' !! j = shards c !! j).
Proof.
  intros Hwf. pose proof Hwf as (Hpos & Hmax & Hcur).
  pose proof (getShard_in_range Sum64String c key Hwf) as Hi.
  assert (Hidx : uint64 (Sum64String key) mod Z.of_nat (length (shards c))
                 = Z.of_nat (route Sum64String (length (shards c)) key)).
  { unfold route.
    pose proof (Z.mod_pos_bound (uint64 (Sum64String key))
                  (Z.of_nat (length (shards c)))).
    lia. }
  fold (route Sum64String (length (shards c)) key) in Hi.
  set (i := route Sum64String (length (shards c)) key) in *.
  split.
  - unfold Delete. rewrite getShard_wf by done.
    fold (route Sum64String (length (shards c)) key). fold i.
    rewrite Hidx. cbn [bind ret call app].
    eexists. split; [reflexivity|].
    unfold with_shards. cbn [cfg ttl shards nextShard].
    rewrite length_alter. split_and!; try done.
    intros j Hj. by rewrite list_lookup_alter_ne.
  - intros now v m. unfold set. rewrite getShard_wf by done.
    fold (route Sum64String (length (shards c)) key). fold i.
    rewrite Hidx. cbn [bind ret call app].
    destruct (lookup_lt_is_Some_2 (shards c) i Hi) as [s Hs].
    unfold index. destruct (Z.ltb_spec (Z.of_nat i) 0); [lia|].
    rewrite Nat2Z.id, Hs. cbn [bind ret call app].
    destruct (shard_set_total forcedVictims now key v m s)
      as (trs & s' & fired & Hset & _).
    rewrite Hset. cbn [bind ret call app fst snd].
    exists trs, (with_shards c (<[i:=s']> (shards c))), fired.
    split; [by rewrite ?app_nil_r, <- ?app_assoc|].
    unfold with_shards. cbn [cfg ttl shards nextShard].
    rewrite length_insert. split_and!; try done.
    intros j Hj. by rewrite list_lookup_insert_ne.
Qed.

(** *** A client without shards *)

(** X5: on a client whose shard slice is empty, [getShard], [Delete] and
    [set] panic on the division by the number of shards before any call is
    made on the recorder or on a shard; [Size] makes no call and returns 0;
    the first tick of the eviction loop reports its [Eviction], panics on
    the slice access, and the loop ends with the ticker stopped. *)
Theorem no_shards_panics c key :
  shards c = [] ->
  getShard Sum64String c key = ([], Panic "integer divide by zero") ∧
  Delete Sum64String c key = ([], Panic "integer divide by zero") ∧
  (∀ now v isMissingRecord,
     set Sum64String forcedVictims now c key v isMissingRecord
     = ([], Panic "integer divide by zero")) ∧
  Size c = ([], Ok 0) ∧
  (∀ evictExpired now rest,
     evictionLoop evictExpired (now :: rest) c
     = (reportTo (metricsRecorder (cfg c)) Eviction ++ [StopTicker],
        Crashed "index out of range")).
Proof.
  intros Hnone.
  assert (Hget : getShard Sum64String c key
                 = ([], Panic "integer divide by zero"))
    by (unfold getShard; rewrite Hnone; reflexivity).
  split_and!.
  - exact Hget.
  - unfold Delete. by rewrite Hget.
  - intros now v m. unfold set. by rewrite Hget.
  - unfold Size. by rewrite Hnone.
  - intros evictExpired now rest. cbn [evictionLoop].
    unfold evictionTick, index. rewrite Hnone, lookup_nil.
    destruct (metricsRecorder (cfg c)), (nextShard c <? 0); reflexivity.
Qed.

(** *** The capacity of the shards *)

Lemma sumCapacities_replicate (n : nat) (s : shard T Clock MetricsRecorder) :
  sumCapacities (replicate n s) = Z.of_nat n * capacity s.
Proof.
  unfold sumCapacities. induction n as [|n IH]; [done|].
  cbn [replicate fmap list_fmap foldr]. cbn [fmap] in IH. rewrite IH. lia.
Qed.

Lemma sumCapacities_constructed total numShards ttl evictionPercentage opts :
  0 < numShards <= total ->
  sumCapacities
    (shards (constructed (T := T) NewClock total numShards ttl
               evictionPercentage opts))
  = numShards * (total / numShards).
Proof.
  intros Hn. unfold constructed. cbn [shards].
  rewrite sumCapacities_replicate. cbn [capacity newShard].
  rewrite Z.quot_div_nonneg by lia. lia.
Qed.

(** X6: the shards of a client built by [New] share out
    [numShards * (capacity / numShards)] slots: never more than the capacity
    asked for, less than [numShards] short of it, and at least one slot per
    shard. *)
Theorem capacity_is_shared_out total numShards ttl evictionPercentage opts
    tr c :
  New NewClock (T := T) total numShards ttl evictionPercentage opts
  = (tr, Ok c) ->
  sumCapacities (shards c) = numShards * (total / numShards) ∧
  total - numShards < sumCapacities (shards c) <= total ∧
  Forall (fun s => 1 <= capacity s) (shards c).
Proof.
  intros HNew.
  destruct (New_inv NewClock _ _ _ _ _ _ _ HNew)
    as ((Hn & _ & _ & Hcap) & _ & _ & ->).
  rewrite sumCapacities_constructed by lia.
  pose proof (Z.mul_div_le total numShards).
  pose proof (Z.mul_succ_div_gt total numShards).
  split_and!; try lia.
  unfold constructed. cbn [shards]. apply Forall_replicate.
  cbn [capacity newShard]. rewrite Z.quot_div_nonneg by lia.
  apply Z.div_le_lower_bound; lia.
Qed.

Lemma sumSizes_le_capacities (l : list (shard T Clock MetricsRecorder)) :
  Forall (fun s => shard_size s <= capacity s) l ->
  sumSizes l <= sumCapacities l.
Proof.
  unfold sumSizes, sumCapacities.
  induction 1 as [|s l Hs _ IH]; [done|].
  cbn [fmap list_fmap foldr]. cbn [fmap] in IH. lia.
Qed.

(** X7: on a client built by [New] with a capacity that is an [int], after
    any operations, if every shard is within its capacity then [Size]
    returns the exact number of entries, and that number is at most the
    capacity given to [New]. *)
Theorem Size_within_capacity total numShards ttl evictionPercentage opts
    tr0 c0 :
  New NewClock (T := T) total numShards ttl evictionPercentage opts
  = (tr0, Ok c0) ->
  total <= max_int ->
  ∀ ops, ∃ tr c,
    run Sum64String forcedVictims shard_evictExpired ops c0 = (tr, Ok c) ∧
    (bounded c ->
     (Size c).2 = Ok (sumSizes (shards c)) ∧
     0 <= sumSizes (shards c) <= total).
Proof.
  intros HNew Hint ops. pose proof (New_wf NewClock _ _ _ _ _ _ _ HNew) as Hwf0.
  destruct (New_inv NewClock _ _ _ _ _ _ _ HNew)
    as ((Hn & _ & _ & Hcap) & _ & _ & Hc0).
  destruct (run_total Sum64String forcedVictims ops c0 Hwf0)
    as (tr & c & Hrun & _ & _ & _ & Hcaps).
  exists tr, c. split; [done|]. intros Hbounded.
  pose proof (sumSizes_le_capacities _ Hbounded) as Hle.
  pose proof (sumSizes_nonneg (shards c)) as Hpos.
  assert (Hsum : sumCapacities (shards c) = numShards * (total / numShards)).
  { unfold sumCapacities. rewrite Hcaps, Hc0.
    apply sumCapacities_constructed. lia. }
  pose proof (Z.mul_div_le total numShards).
  rewrite Size_wraps. cbn [snd].
  rewrite wrap_int_small by (unfold min_int; lia).
  split; [done|]. lia.
Qed.

(** *** The tick period *)

Lemma applyOptions_app opts1 opts2 (cfg0 : Config Clock MetricsRecorder) :
  applyOptions (opts1 ++ opts2) cfg0
  = applyOptions opts2 (applyOptions opts1 cfg0).
Proof. unfold applyOptions. apply foldl_app. Qed.

(** X8: with the default interval, the tick period handed to the clock is
    never negative, and it is zero exactly when [ttl] is smaller than
    [numShards]. *)
Theorem tick_period_can_be_zero capacity numShards ttl evictionPercentage
    opts tr c :
  New NewClock (T := T) capacity numShards ttl evictionPercentage opts
  = (tr, Ok c) ->
  Forall (fun opt : Option Clock MetricsRecorder =>
            ∀ cfg, evictionInterval (opt cfg) = evictionInterval cfg) opts ->
  0 <= evictionInterval (cfg c) ∧
  (evictionInterval (cfg c) = 0 <-> ttl < numShards) ∧
  (ttl < numShards ->
   ∀ evictExpired ticks,
     head (evictionRoutine evictExpired ticks c).1
     = Some (NewTicker (clock (cfg c)) 0)).
Proof.
  intros HNew Hopts.
  destruct (New_inv NewClock _ _ _ _ _ _ _ HNew)
    as ((Hn & Ht & _) & _ & _ & ->).
  assert (Hi : evictionInterval
                 (cfg (constructed (T := T) NewClock capacity numShards ttl
                         evictionPercentage opts))
               = ttl / numShards).
  { unfold constructed. cbn [cfg].
    rewrite applyOptions_interval by done. cbn [evictionInterval defaultConfig].
    apply Z.quot_div_nonneg; lia. }
  assert (Hzero : ttl / numShards = 0 <-> ttl < numShards).
  { rewrite Z.div_small_iff by lia. lia. }
  split_and!.
  - rewrite Hi. apply Z.div_pos; lia.
  - by rewrite Hi.
  - intros Hsmall evictExpired ticks. unfold evictionRoutine.
    destruct (evictionLoop evictExpired ticks _) as [tr' g].
    cbn [fst head]. rewrite Hi. by rewrite (proj2 Hzero Hsmall).
Qed.

(** X9: an option that sets the eviction interval decides the tick period,
    provided no later option changes it: the ticker of the eviction
    goroutine is created with the interval of that option, not with
    [ttl / numShards]. *)
Theorem option_sets_tick_period capacity numShards ttl evictionPercentage
    opts1 (opt : Option Clock MetricsRecorder) opts2 d tr c :
  New NewClock (T := T) capacity numShards ttl evictionPercentage
    (opts1 ++ opt :: opts2)
  = (tr, Ok c) ->
  (∀ cfg, evictionInterval (opt cfg) = d) ->
  Forall (fun opt : Option Clock MetricsRecorder =>
            ∀ cfg, evictionInterval (opt cfg) = evictionInterval cfg) opts2 ->
  evictionInterval (cfg c) = d ∧
  ∀ evictExpired ticks,
    head (evictionRoutine evictExpired ticks c).1
    = Some (NewTicker (clock (cfg c)) d).
Proof.
  intros HNew Hopt Hopts2.
  destruct (New_inv NewClock _ _ _ _ _ _ _ HNew) as (_ & _ & _ & ->).
  assert (Hi : evictionInterval
                 (cfg (constructed (T := T) NewClock capacity numShards ttl
                         evictionPercentage (opts1 ++ opt :: opts2)))
               = d).
  { unfold constructed. cbn [cfg].
    rewrite applyOptions_app.
    change (opt :: opts2) with ([opt] ++ opts2).
    rewrite applyOptions_app, applyOptions_interval by done.
    apply Hopt. }
  split; [exact Hi|].
  intros evictExpired ticks. unfold evictionRoutine.
  destruct (evictionLoop evictExpired ticks _) as [tr' g].
  cbn [fst head]. by rewrite Hi.
Qed.

(** *** Hits and misses *)

(** X10: a run of reads reports to the recorder one call per read, in
    order, [CacheHit] for a hit and [CacheMiss] for a miss (nothing without a
    recorder), and leaves the client as it was. *)
Theorem reads_are_reported
    (evictExpired : Time -> shard T Clock MetricsRecorder ->
                    Outcome (shard T Clock MetricsRecorder))
    (hits : list bool) c :
  run Sum64String forcedVictims evictExpired (OpReport <$> hits) c
  = (concat (hitReport (metricsRecorder (cfg c)) <$> hits), Ok c) ∧
  (∀ r, metricsRecorder (cfg c) = Some r ->
        (run Sum64String forcedVictims evictExpired (OpReport <$> hits) c).1
        = (fun hit : bool =>
             Metric r (if hit then CacheHit else CacheMiss)) <$> hits).
Proof.
  assert (Hrun :
    run Sum64String forcedVictims evictExpired (OpReport <$> hits) c
    = (concat (hitReport (metricsRecorder (cfg c)) <$> hits), Ok c)).
  { induction hits as [|hit hits IH]; [done|].
    cbn [fmap list_fmap run step concat]. cbn [fmap] in IH.
    unfold reportCacheHits, hitReport at 1.
    destruct (metricsRecorder (cfg c)) as [r|]; [destruct hit|];
      cbn [negb bind ret call reportTo]; by rewrite IH. }
  split; [exact Hrun|].
  intros r Hr. rewrite Hrun, Hr. cbn [fst]. clear Hrun.
  induction hits as [|hit hits IH]; [done|].
  cbn [fmap list_fmap concat]. cbn [fmap] in IH. by rewrite IH.
Qed.

(** *** A successful construction *)

(** X11: when [New] returns a client, the shard slice was within the
    allocation limit and the eviction goroutine has been launched exactly
    once; the client has the TTL it was given, [numShards] shards, the
    cursor on shard 0, and no entries; without options it has no metrics
    recorder, the clock of [NewClock] and a passthrough percentage of 100. *)
Theorem New_returns_fresh_client capacity numShards timeToLive
    evictionPercentage opts tr c :
  New NewClock (T := T) capacity numShards timeToLive evictionPercentage opts
  = (tr, Ok c) ->
  tr = [GoEvictions] ∧
  ptr_size * numShards <= maxAlloc ∧
  ttl c = timeToLive ∧ nextShard c = 0 ∧
  Z.of_nat (length (shards c)) = numShards ∧
  (∀ key, uncached key c) ∧
  (Size c).2 = Ok 0 ∧
  (opts = [] ->
   metricsRecorder (cfg c) = None ∧ clock (cfg c) = NewClock ∧
   passthroughPercentage (cfg c) = 100).
Proof.
  intros HNew. pose proof (New_allocates NewClock _ _ _ _ _ _ _ HNew) as Halloc.
  destruct (New_inv NewClock _ _ _ _ _ _ _ HNew) as ((Hn & _) & _ & -> & ->).
  unfold constructed. cbn [ttl nextShard shards cfg].
  rewrite length_replicate. split_and!; try done; try lia.
  - intros key j s Hj. cbn [shards] in Hj.
    apply lookup_replicate in Hj as [-> _]. apply lookup_empty.
  - rewrite Size_wraps. cbn [snd shards]. f_equal.
    assert (Hzero : ∀ n (s : shard T Clock MetricsRecorder),
              entries s = ∅ -> sumSizes (replicate n s) = 0).
    { intros n s Hs. unfold sumSizes. induction n as [|n IH]; [done|].
      cbn [replicate fmap list_fmap foldr]. cbn [fmap] in IH. rewrite IH.
      unfold shard_size. by rewrite Hs. }
    by rewrite Hzero.
  - by intros ->.
Qed.

End Further.

(** ** The further properties at work on concrete clients *)

Lemma evictionLoop_schedule_witness :
  wf Sample.metered ∧
  ∃ c',
    evictionLoop shard_evictExpired [1; 2; 3] Sample.metered
    = ([Metric 7%nat Eviction; ShardCall 0 CallEvictExpired;
        Metric 7%nat Eviction; ShardCall 1 CallEvictExpired;
        Metric 7%nat Eviction; ShardCall 0 CallEvictExpired],
       Waiting c') ∧
    nextShard c' = 1.
Proof.
  split; [exact metered_wf|].
  destruct (evictionLoop_schedule shard_evictExpired [1; 2; 3] Sample.metered
              shard_evictExpired_returns metered_wf)
    as (c' & Hloop & _ & Hnext & _).
  exists c'. exact (conj Hloop Hnext).
Defined.

Lemma cursor_counts_ticks_witness :
  New 0%nat 10 2 1000 50 [] = ([GoEvictions], Ok Sample.plain) ∧
  ∃ tr c,
    run Sample.hashLen Sample.noVictims shard_evictExpired
      [OpTick 0; OpDelete "k"; OpTick 1; OpSize; OpTick 2] Sample.plain
    = (tr, Ok c) ∧
    nextShard c = 1.
Proof.
  split; [reflexivity|].
  destruct (cursor_counts_ticks 0%nat Sample.hashLen Sample.noVictims
              10 2 1000 50 [] [GoEvictions] Sample.plain eq_refl
              [OpTick 0; OpDelete "k"; OpTick 1; OpSize; OpTick 2])
    as (tr & c & Hrun & Hnext & _).
  exists tr, c. exact (conj Hrun Hnext).
Defined.

Lemma Delete_uncaches_witness :
  New 0%nat 10 2 1000 50 [] = ([GoEvictions], Ok Sample.plain) ∧
  ∃ tr c,
    run Sample.hashLen Sample.noVictims shard_evictExpired
      [OpSet 0 "abc" 5%nat false; OpTick 1] Sample.plain
    = (tr, Ok c) ∧
    ∃ tr' c',
      Delete Sample.hashLen c "abc" = (tr', Ok c') ∧ uncached "abc" c'.
Proof.
  split; [reflexivity|].
  destruct (Delete_uncaches 0%nat Sample.hashLen Sample.noVictims
              10 2 1000 50 [] [GoEvictions] Sample.plain eq_refl
              [OpSet 0 "abc" 5%nat false; OpTick 1])
    as (tr & c & Hrun & _ & Hdel).
  exists tr, c. exact (conj Hrun (Hdel "abc")).
Defined.

Lemma routed_shard_only_witness :
  wf Sample.metered ∧
  ∃ c',
    Delete Sample.hashLen Sample.metered "abc"
    = ([Metric 7%nat (ShardIndex 1); ShardCall 1 (CallDelete "abc")], Ok c') ∧
    nextShard c' = nextShard Sample.metered.
Proof.
  split; [exact metered_wf|].
  destruct (proj1 (routed_shard_only Sample.hashLen Sample.noVictims
                     Sample.metered "abc" metered_wf))
    as (c' & Hdel & _ & _ & Hnext & _).
  exists c'. exact (conj Hdel Hnext).
Defined.

Lemma no_shards_panics_witness :
  shards Corner.hollow = [] ∧
  getShard Sample.hashLen Corner.hollow "abc"
  = ([], Panic "integer divide by zero") ∧
  evictionLoop shard_evictExpired [0; 1] Corner.hollow
  = ([Metric 7%nat Eviction; StopTicker], Crashed "index out of range").
Proof.
  split; [reflexivity|].
  pose proof (no_shards_panics Sample.hashLen Sample.noVictims Corner.hollow
                "abc" eq_refl) as (Hget & _ & _ & _ & Hloop).
  exact (conj Hget (Hloop shard_evictExpired 0 [1])).
Defined.

Lemma capacity_is_shared_out_witness :
  New 0%nat 10 3 1000 50 [] = ([GoEvictions], Ok Corner.uneven) ∧
  sumCapacities (shards Corner.uneven) = 9.
Proof.
  split; [reflexivity|].
  exact (proj1 (capacity_is_shared_out 0%nat 10 3 1000 50 []
                  [GoEvictions] Corner.uneven eq_refl)).
Defined.

Lemma Size_within_capacity_witness :
  (New 0%nat 10 2 1000 50 [] = ([GoEvictions], Ok Sample.plain) ∧
   10 <= max_int) ∧
  ∃ tr c,
    run Sample.hashLen Sample.noVictims shard_evictExpired
      [OpSet 0 "abc" 5%nat false] Sample.plain
    = (tr, Ok c) ∧
    bounded c ∧ (Size c).2 = Ok 1.
Proof.
  assert (Hint : 10 <= max_int) by (vm_compute; discriminate).
  split; [split; [reflexivity|exact Hint]|].
  destruct (Size_within_capacity 0%nat Sample.hashLen Sample.noVictims
              10 2 1000 50 [] [GoEvictions] Sample.plain eq_refl Hint
              [OpSet 0 "abc" 5%nat false])
    as (tr & c & Hrun & Hsize).
  exists tr, c. split; [exact Hrun|].
  vm_compute in Hrun. injection Hrun as _ <-.
  match goal with
  | |- bounded ?built ∧ _ =>
      assert (Hb : bounded built)
        by (unfold bounded; cbn [shards];
            repeat (apply Forall_cons_2 || apply Forall_nil_2);
            vm_compute; discriminate)
  end.
  split; [exact Hb|]. exact (proj1 (Hsize Hb)).
Defined.

Lemma tick_period_can_be_zero_witness :
  New 0%nat 3 3 2 50 [] = ([GoEvictions], Ok Corner.hasty) ∧
  evictionInterval (cfg Corner.hasty) = 0.
Proof.
  split; [reflexivity|].
  destruct (tick_period_can_be_zero 0%nat 3 3 2 50 [] [GoEvictions]
              Corner.hasty eq_refl (Forall_nil_2 _))
    as (_ & Hzero & _).
  apply Hzero. lia.
Defined.

Lemma option_sets_tick_period_witness :
  New 0%nat 10 2 1000 50
    [Sample.With 1%nat (Some 7%nat); Corner.WithEvictionInterval 50]
  = ([GoEvictions], Ok Corner.paced) ∧
  evictionInterval (cfg Corner.paced) = 50.
Proof.
  split; [reflexivity|].
  exact (proj1 (option_sets_tick_period 0%nat 10 2 1000 50
                  [Sample.With 1%nat (Some 7%nat)]
                  (Corner.WithEvictionInterval 50) [] 50
                  [GoEvictions] Corner.paced eq_refl
                  (fun _ => eq_refl) (Forall_nil_2 _))).
Defined.

Lemma reads_are_reported_witness :
  metricsRecorder (cfg Sample.metered) = Some 7%nat ∧
  (run Sample.hashLen Sample.noVictims shard_evictExpired
     (OpReport <$> [true; false; true]) Sample.metered).1
  = [Metric 7%nat CacheHit; Metric 7%nat CacheMiss; Metric 7%nat CacheHit].
Proof.
  split; [reflexivity|].
  exact (proj2 (reads_are_reported Sample.hashLen Sample.noVictims
                  shard_evictExpired [true; false; true] Sample.metered)
           7%nat eq_refl).
Defined.

Lemma New_returns_fresh_client_witness :
  New 0%nat 10 2 1000 50 [] = ([GoEvictions], Ok Sample.plain) ∧
  nextShard Sample.plain = 0 ∧ (Size Sample.plain).2 = Ok 0.
Proof.
  split; [reflexivity|].
  pose proof (New_returns_fresh_client 0%nat 10 2 1000 50 []
                [GoEvictions] Sample.plain eq_refl)
    as (_ & _ & _ & Hnext & _ & _ & Hsize & _).
  exact (conj Hnext Hsize).
Defined.
